(** * Pod assembly of Tekton pipelines: a shallow embedding of
    [pkg/pod/pod.go], of the variable-substitution matcher of
    [pkg/apis/pipeline/v1beta1] ([validateString]), of the termination message
    length error, and of the parts of the entrypoint protocol and of the
    resource-request pass that this slice of the repository only calls. *)

From Stdlib Require Import String Ascii List ZArith NArith Lia.
From stdpp Require Import base gmap strings list fin_maps pretty.
Import ListNotations.
Open Scope string_scope.
Open Scope list_scope.

(* ------------------------------------------------------------------ *)
(** ** Go library helpers *)

(** [path/filepath.Clean] on Unix: a lexical normalisation.  It is written
    over the '/'-separated elements: empty and "." elements vanish, ".."
    removes the previous real element (at the root it is dropped, in a
    relative path it is kept), a rooted path keeps its leading '/', and the
    empty result is ".". *)
Fixpoint split_slash (cs : list ascii) (cur : list ascii) : list string :=
  match cs with
  | [] => [string_of_list_ascii (rev cur)]
  | c :: cs' =>
      if Ascii.eqb c "/"%char
      then string_of_list_ascii (rev cur) :: split_slash cs' []
      else split_slash cs' (c :: cur)
  end.

Fixpoint clean_elems (rooted : bool) (stack : list string) (elems : list string)
  : list string :=
  match elems with
  | [] => stack
  | e :: rest =>
      if String.eqb e "" || String.eqb e "." then clean_elems rooted stack rest
      else if String.eqb e ".." then
        match stack with
        | top :: stack' =>
            if String.eqb top ".." then clean_elems rooted (".." :: stack) rest
            else clean_elems rooted stack' rest
        | [] =>
            if rooted then clean_elems rooted [] rest
            else clean_elems rooted [".."] rest
        end
      else clean_elems rooted (e :: stack) rest
  end.

Definition filepath_Clean (path : string) : string :=
  let cs := list_ascii_of_string path in
  let rooted := match cs with c :: _ => Ascii.eqb c "/"%char | [] => false end in
  let body := String.concat "/" (rev (clean_elems rooted [] (split_slash cs []))) in
  if rooted then ("/" ++ body)%string
  else if String.eqb body "" then "." else body.

(* ------------------------------------------------------------------ *)
(** ** Kubernetes data, as far as [Build] touches it *)

(** [corev1.ResourceList]: a map from resource name to quantity, a
    quantity in milli-units.  The API server rejects negative requests and
    minimums, so quantities are natural numbers.  Indexing a Go map at a
    missing key yields the zero quantity, hence [qty]. *)
Definition qty (m : gmap string N) (k : string) : N :=
  default 0%N (m !! k).

Record ResourceRequirements := mkResources {
  res_limits : gmap string N;
  res_requests : gmap string N
}.

Record EnvVar := mkEnvVar { ev_name : string; ev_value : string }.

Record VolumeMount := mkVolumeMount { vm_name : string; vm_mountPath : string }.

(** A volume; its source is irrelevant to assembly and is left out. *)
Record Volume := mkVolume { vol_name : string }.

Record Container := mkContainer {
  c_name : string;
  c_image : string;
  c_command : list string;
  c_workingDir : string;
  c_env : list EnvVar;
  c_volumeMounts : list VolumeMount;
  c_resources : ResourceRequirements
}.

Definition set_env (c : Container) (env : list EnvVar) : Container :=
  mkContainer (c_name c) (c_image c) (c_command c) (c_workingDir c) env
    (c_volumeMounts c) (c_resources c).

Definition set_volumeMounts (c : Container) (vms : list VolumeMount) : Container :=
  mkContainer (c_name c) (c_image c) (c_command c) (c_workingDir c) (c_env c)
    vms (c_resources c).

Definition set_requests (c : Container) (reqs : gmap string N) : Container :=
  mkContainer (c_name c) (c_image c) (c_command c) (c_workingDir c) (c_env c)
    (c_volumeMounts c) (mkResources (res_limits (c_resources c)) reqs).

Definition set_workingDir (c : Container) (wd : string) : Container :=
  mkContainer (c_name c) (c_image c) (c_command c) wd (c_env c)
    (c_volumeMounts c) (c_resources c).

Definition set_name (c : Container) (n : string) : Container :=
  mkContainer n (c_image c) (c_command c) (c_workingDir c) (c_env c)
    (c_volumeMounts c) (c_resources c).

(** [corev1.LimitRangeItem] and [corev1.LimitRange]. *)
Record LimitRangeItem := mkLimitRangeItem {
  lri_type : string;
  lri_min : option (gmap string N)
}.

Record LimitRange := mkLimitRange { lr_limits : list LimitRangeItem }.

Definition LimitTypeContainer : string := "Container".

(** Affinity types of [corev1]; node affinity and anti-affinity are kept
    as opaque terms, they are only copied. *)
Record LabelSelector := mkLabelSelector { matchLabels : gmap string string }.

Record PodAffinityTerm := mkPodAffinityTerm {
  pat_labelSelector : option LabelSelector;
  pat_topologyKey : string
}.

Record PodAffinity := mkPodAffinity {
  requiredDuringSchedulingIgnoredDuringExecution : list PodAffinityTerm
}.

Record Affinity := mkAffinity {
  aff_nodeAffinity : option (list string);
  aff_podAffinity : option PodAffinity;
  aff_podAntiAffinity : option (list PodAffinityTerm)
}.

(* ------------------------------------------------------------------ *)
(** ** Constants *)

(** From [pkg/apis/pipeline/paths.go]. *)
Definition WorkspaceDir : string := "/workspace".
Definition DefaultResultPath : string := "/tekton/results".
Definition HomeDir : string := "/tekton/home".
Definition CredsDir : string := "/tekton/creds".
Definition StepsDir : string := "/tekton/steps".

Definition TektonHermeticEnvVar : string := "TEKTON_HERMETIC".
Definition ExecutionModeAnnotation : string := "experimental.tekton.dev/execution-mode".
Definition ExecutionModeHermetic : string := "hermetic".
Definition ReleaseAnnotation : string := "pipeline.tekton.dev/release".
Definition AlphaAPIFields : string := "alpha".

(** Names of the [workspace] package and of the rest of [pkg/pod]. *)
Definition AnnotationAffinityAssistantName : string := "pipeline.tekton.dev/affinity-assistant".
Definition LabelInstance : string := "app.kubernetes.io/instance".
Definition LabelComponent : string := "app.kubernetes.io/component".
Definition ComponentNameAffinityAssistant : string := "affinity-assistant".
Definition TaskRunLabelKey : string := "tekton.dev/taskRun".
Definition readyAnnotation : string := "tekton.dev/ready".
Definition readyAnnotationValue : string := "READY".
Definition sidecarPrefix : string := "sidecar-".

Definition implicitVolumeMounts : list VolumeMount :=
  [ mkVolumeMount "tekton-internal-workspace" WorkspaceDir;
    mkVolumeMount "tekton-internal-home" HomeDir;
    mkVolumeMount "tekton-internal-results" DefaultResultPath;
    mkVolumeMount "tekton-internal-steps" StepsDir ].

Definition implicitVolumes : list Volume :=
  [ mkVolume "tekton-internal-workspace"; mkVolume "tekton-internal-home";
    mkVolume "tekton-internal-results"; mkVolume "tekton-internal-steps" ].

Definition scriptsVolume : Volume := mkVolume "tekton-internal-scripts".
Definition debugScriptsVolume : Volume := mkVolume "tekton-internal-debug-scripts".
Definition debugInfoVolume : Volume := mkVolume "tekton-internal-debug-info".
Definition toolsVolume : Volume := mkVolume "tekton-internal-tools".
Definition downwardVolume : Volume := mkVolume "tekton-internal-downward".

(* ------------------------------------------------------------------ *)
(** ** Resource floors: [getLimitRangeMinimum] and the request pass *)

(** Modelled from the spec: [allZeroQty] of [pkg/pod] (not in this slice),
    the starting floor, zero for every resource (§4.5: the floor is the
    maximum across the namespace declarations). *)
Definition allZeroQty : gmap string N :=
  <["cpu" := 0%N]> (<["memory" := 0%N]> (<["ephemeral-storage" := 0%N]> ∅)).

(** [for k, v := range lrItem.Min { if v.Cmp(min[k]) > 0 { min[k] = v } }] *)
Definition raiseMin (min : gmap string N) (lrMin : gmap string N) : gmap string N :=
  map_fold (fun k v min => if (qty min k <? v)%N then <[k := v]> min else min)
    min lrMin.

(** The loop over the items of one LimitRange. *)
Definition itemsMin (min : gmap string N) (items : list LimitRangeItem)
  : gmap string N :=
  fold_left (fun min lrItem =>
    if String.eqb (lri_type lrItem) LimitTypeContainer then
      match lri_min lrItem with
      | Some m => raiseMin min m
      | None => min
      end
    else min) items min.

Definition limitRangesMin (lrs : list LimitRange) : gmap string N :=
  fold_left (fun min lr => itemsMin min (lr_limits lr)) lrs allZeroQty.

(** [getLimitRangeMinimum]: the listing of the namespace's LimitRanges is
    the cluster client's; its failure is returned. *)
Definition getLimitRangeMinimum
    (listLimitRanges : string -> string + list LimitRange) (namespace : string)
  : string + gmap string N :=
  match listLimitRanges namespace with
  | inl err => inl err
  | inr lrs => inr (limitRangesMin lrs)
  end.


(** [resolveResourceRequests] of [pkg/pod] is not in this slice; its call
    (line 185) is commented "Zero out non-max resource requests".  It is
    modelled as that pass: for each of cpu, memory and ephemeral storage,
    the first container with the largest request keeps it, and every other
    container's request is set to the LimitRange minimum.  In Go the
    request maps are written in place; here the updated containers are
    returned. *)
Definition resourceNames : list string := ["cpu"; "memory"; "ephemeral-storage"].

(** [for k, v := range c.Resources.Requests { if v.Cmp(max[k]) > 0 {
      maxIndicesByResource[k] = i; max[k] = v } }] *)
Definition maxRequests (i : nat) (reqs : gmap string N)
    (acc : gmap string N * gmap string Z) : gmap string N * gmap string Z :=
  map_fold (fun k v acc =>
    let '(max, maxIndicesByResource) := acc in
    if (qty max k <? v)%N
    then (<[k := v]> max, <[k := Z.of_nat i]> maxIndicesByResource)
    else (max, maxIndicesByResource)) acc reqs.

(** [for i, c := range containers { ... }] *)
Fixpoint findMaxRequests (i : nat) (containers : list Container)
    (acc : gmap string N * gmap string Z) : gmap string N * gmap string Z :=
  match containers with
  | [] => acc
  | c :: cs => findMaxRequests (S i) cs (maxRequests i (res_requests (c_resources c)) acc)
  end.

Definition resolveResourceRequests (containers : list Container)
    (limitRangeMin : gmap string N) : list Container :=
  let maxIndicesByResource :=
    fold_left (fun m resourceName => <[resourceName := (-1)%Z]> m) resourceNames ∅ in
  let '(max, maxIndicesByResource) :=
    findMaxRequests 0 containers (allZeroQty, maxIndicesByResource) in
  (* a nil request map is replaced by an empty one, then written *)
  fold_left (fun containers resourceName =>
    imap (fun i c =>
      set_requests c
        (<[resourceName :=
            if Z.eqb (Z.of_nat i) (default 0%Z (maxIndicesByResource !! resourceName))
            then qty max resourceName
            else qty limitRangeMin resourceName]> (res_requests (c_resources c))))
      containers) resourceNames containers.

(* ------------------------------------------------------------------ *)
(** ** Task, TaskRun, Pod *)

Record Step := mkStep {
  step_container : Container;
  step_script : string;
  step_onError : string
}.

Record Sidecar := mkSidecar { sidecar_container : Container; sidecar_script : string }.

Record TaskSpec := mkTaskSpec {
  ts_steps : list Step;
  ts_stepTemplate : option Container;
  ts_sidecars : list Sidecar;
  ts_volumes : list Volume
}.

(** [pod.Template], the fields [Build] reads. *)
Record PodTemplate := mkPodTemplate {
  pt_volumes : list Volume;
  pt_affinity : option Affinity;
  pt_dnsPolicy : option string;
  pt_priorityClassName : option string;
  pt_nodeSelector : gmap string string;
  pt_schedulerName : string
}.

Definition emptyPodTemplate : PodTemplate := mkPodTemplate [] None None None ∅ "".

(** A Go map is a reference: the TaskRun holds the location of its
    annotation map in the heap of maps, or [None] for a nil map. *)
Record TaskRun := mkTaskRun {
  tr_name : string;
  tr_namespace : string;
  tr_annotations : option positive;
  tr_labels : gmap string string;
  tr_serviceAccountName : string;
  tr_podTemplate : option PodTemplate;
  tr_debug : option (list string)
}.

Record Pod := mkPod {
  pod_namespace : string;
  pod_name : string;
  pod_ownerName : string;
  pod_annotations : option positive;
  pod_labels : gmap string string;
  pod_restartPolicy : string;
  pod_initContainers : list Container;
  pod_containers : list Container;
  pod_serviceAccountName : string;
  pod_volumes : list Volume;
  pod_nodeSelector : gmap string string;
  pod_affinity : option Affinity;
  pod_schedulerName : string;
  pod_dnsPolicy : string;
  pod_priorityClassName : string
}.

(** [config.FeatureFlags] as read from the context. *)
Record FeatureFlags := mkFeatureFlags {
  enableAPIFields : string;
  disableWorkingDirOverwrite : bool;
  runningInEnvWithInjectedSidecars : bool
}.

Record Images := mkImages {
  entrypointImage : string;
  shellImage : string;
  shellImageWin : string
}.

(** [Builder]; its [KubeClient] and [EntrypointCache] are among the
    collaborators below. *)
Record Builder := mkBuilder { b_images : Images; b_overrideHomeEnv : bool }.

(* ------------------------------------------------------------------ *)
(** ** Heap of Go maps and the assembly monad *)

Abbreviation Store := (gmap positive (gmap string string)).

Inductive outcome (A : Type) : Type :=
| Ok (a : A)
| Err (e : string)
| Panic (msg : string).
Arguments Ok {A} a.
Arguments Err {A} e.
Arguments Panic {A} msg.

(** Go's [(T, error)] results: [inl] the error, [inr] the value. *)
Global Instance result_ret : MRet (sum string) := fun A a => inr a.
Global Instance result_bind : MBind (sum string) := fun A B f r =>
  match r with inl e => inl e | inr a => f a end.

(** State (the heap of maps) and error (returned error or panic). *)
Definition M (A : Type) : Type := Store -> Store * outcome A.

Global Instance M_ret : MRet M := fun A a st => (st, Ok a).
Global Instance M_bind : MBind M := fun A B f m st =>
  match m st with
  | (st', Ok a) => f a st'
  | (st', Err e) => (st', Err e)
  | (st', Panic p) => (st', Panic p)
  end.

Definition lift {A} (r : string + A) : M A :=
  fun st => match r with inl e => (st, Err e) | inr a => (st, Ok a) end.

(** [m[k]] on a [map[string]string]: a nil map reads as empty. *)
Definition mapGet (loc : option positive) (k : string) (st : Store) : string :=
  match loc with
  | None => ""
  | Some l => default "" (st !! l ≫= fun m => m !! k)
  end.

Definition readMap (loc : option positive) (k : string) : M string :=
  fun st => (st, Ok (mapGet loc k st)).

(** [m[k] = v]: writing to a nil map panics. *)
Definition writeMap (loc : option positive) (k v : string) : M unit :=
  fun st =>
    match loc with
    | None => (st, Panic "assignment to entry in nil map")
    | Some l => (<[l := <[k := v]> (default ∅ (st !! l))]> st, Ok tt)
    end.

(* ------------------------------------------------------------------ *)
(** ** [Build] *)

(** The code [Build] calls that lies outside this slice: the cluster
    client ([credsInit], the LimitRange listing), the entrypoint cache
    ([resolveEntrypoints]), the other passes of [pkg/pod] and
    [pkg/apis] ([MergeStepsWithStepTemplate], [convertScripts],
    [workingDirInit], [orderContainers], [getCredsInitVolume],
    [ValidateVolumes], [StepName]), [changeset.Get] and the length
    restriction of the name generator.  [Build] is studied for all of them. *)
Record Collaborators := mkCollaborators {
  credsInit : string -> string -> string + (list string * list Volume * list VolumeMount);
  mergeStepsWithStepTemplate : option Container -> list Step -> string + list Step;
  convertScripts : string -> string -> list Step -> list Sidecar -> option (list string) ->
                   option Container * list Container * list Container;
  workingDirInit : string -> list Container -> option Container;
  resolveEntrypoints : string -> string -> list Container -> string + list Container;
  orderContainers : string -> list string -> list Container -> TaskSpec ->
                    option (list string) -> string + (Container * list Container);
  listLimitRanges : string -> string + list LimitRange;
  getCredsInitVolume : nat -> option (Volume * VolumeMount);
  validateVolumes : list Volume -> option string;
  changesetGet : string + string;
  stepName : string -> nat -> string;
  restrictLength : string -> string
}.

(** Modelled from the spec: [names.SimpleNameGenerator.RestrictLengthWithRandomSuffix]
    (not in this slice).  §3: "a new request always produces a new descriptor
    with a freshly generated unique name": the base, a dash, and a suffix
    [rnd] drawn afresh from a random source at every call. *)
Definition restrictLengthWithRandomSuffix (base rnd : string) : string :=
  (base ++ "-" ++ rnd)%string.

Definition nodeAffinityUsingAffinityAssistant (affinityAssistantName : string) : Affinity :=
  mkAffinity None
    (Some (mkPodAffinity
      [mkPodAffinityTerm
         (Some (mkLabelSelector
                  (<[LabelInstance := affinityAssistantName]>
                     (<[LabelComponent := ComponentNameAffinityAssistant]> ∅))))
         "kubernetes.io/hostname"]))
    None.

Definition makeLabels (tr : TaskRun) : gmap string string :=
  <[TaskRunLabelKey := tr_name tr]> (tr_labels tr).

Definition shouldOverrideWorkingDir (ctx : FeatureFlags) : bool :=
  negb (disableWorkingDirOverwrite ctx).

Definition shouldAddReadyAnnotationOnPodCreate (ctx : FeatureFlags)
    (sidecars : list Sidecar) : bool :=
  match sidecars with
  | [] => negb (runningInEnvWithInjectedSidecars ctx)
  | _ => false
  end.

Definition implicitEnvVarsOf (b : Builder) : list EnvVar :=
  if b_overrideHomeEnv b then [mkEnvVar "HOME" HomeDir] else [].

(** Lines 190-195: implicit env vars are prepended. *)
Definition addImplicitEnvVars (implicitEnvVars : list EnvVar)
    (stepContainers : list Container) : list Container :=
  if (0 <? length implicitEnvVars)%nat
  then map (fun s => set_env s (implicitEnvVars ++ c_env s)) stepContainers
  else stepContainers.

(** Lines 198-204: the hermetic variable is appended. *)
Definition addHermeticEnvVar (hermetic : bool) (stepContainers : list Container)
  : list Container :=
  if hermetic
  then map (fun s => set_env s (c_env s ++ [mkEnvVar TektonHermeticEnvVar "1"]))
         stepContainers
  else stepContainers.

(** Lines 220-230 for one step whose own mounts are [own]. *)
Definition stepVolumeMounts (volumeMounts own : list VolumeMount) : list VolumeMount :=
  let requestedVolumeMounts : gset string :=
    list_to_set (map (fun vm => filepath_Clean (vm_mountPath vm)) own) in
  own ++ filter (fun imp => filepath_Clean (vm_mountPath imp) ∉ requestedVolumeMounts)
           volumeMounts.

Section Build.
Context (cb : Collaborators) (ctx : FeatureFlags).

(** Lines 208-232: the loop over the steps, [i] the index of the first. *)
Fixpoint addImplicitVolumeMounts (volumeMounts : list VolumeMount) (i : nat)
    (stepContainers : list Container) : list Volume * list Container :=
  match stepContainers with
  | [] => ([], [])
  | s :: rest =>
      let '(vs, own) :=
        match getCredsInitVolume cb i with
        | Some (v, vm) => ([v], c_volumeMounts s ++ [vm])
        | None => ([], c_volumeMounts s)
        end in
      let '(vs', rest') := addImplicitVolumeMounts volumeMounts (S i) rest in
      (vs ++ vs', set_volumeMounts s (stepVolumeMounts volumeMounts own) :: rest')
  end.

(** Lines 239-245. *)
Definition defaultWorkingDirAndName (stepContainers : list Container) : list Container :=
  imap (fun i s =>
    let s' := if String.eqb (c_workingDir s) "" && shouldOverrideWorkingDir ctx
              then set_workingDir s WorkspaceDir else s in
    set_name s' (restrictLength cb (stepName cb (c_name s) i))) stepContainers.

(** Lines 273-279. *)
Definition mergeSidecars (stepContainers sidecarContainers : list Container)
  : list Container :=
  stepContainers ++
  map (fun sc => set_name sc (restrictLength cb (sidecarPrefix ++ c_name sc)%string))
    sidecarContainers.

(** The state of [Build] after line 177. *)
Record Prepared := mkPrepared {
  p_initContainers : list Container;
  p_volumes : list Volume;
  p_volumeMounts : list VolumeMount;
  p_stepContainers : list Container;
  p_sidecarContainers : list Container
}.

(** Lines 105-177: credentials, step template, scripts, working
    directories, entrypoints and the entrypoint init container. *)
Definition prepare (b : Builder) (taskRun : TaskRun) (taskSpec : TaskSpec)
  : string + Prepared :=
  let alphaAPIEnabled := String.eqb (enableAPIFields ctx) AlphaAPIFields in
  '(credEntrypointArgs, credVolumes, credVolumeMounts) ←
     credsInit cb (tr_serviceAccountName taskRun) (tr_namespace taskRun);
  let volumes := implicitVolumes ++ credVolumes in
  let volumeMounts := implicitVolumeMounts ++ credVolumeMounts in
  steps ← mergeStepsWithStepTemplate cb (ts_stepTemplate taskSpec) (ts_steps taskSpec);
  let '(scriptsInit, stepContainers, sidecarContainers) :=
    if alphaAPIEnabled
    then convertScripts cb (shellImage (b_images b)) (shellImageWin (b_images b))
           steps (ts_sidecars taskSpec) (tr_debug taskRun)
    else convertScripts cb (shellImage (b_images b)) "" steps (ts_sidecars taskSpec) None in
  let initContainers := option_list scriptsInit in
  let volumes := volumes ++ (if scriptsInit then [scriptsVolume] else []) in
  let volumes := volumes ++
    (if alphaAPIEnabled && bool_decide (is_Some (tr_debug taskRun))
     then [debugScriptsVolume; debugInfoVolume] else []) in
  let initContainers := initContainers ++
    option_list (workingDirInit cb (shellImage (b_images b)) stepContainers) in
  stepContainers ← resolveEntrypoints cb (tr_namespace taskRun)
                     (tr_serviceAccountName taskRun) stepContainers;
  '(entrypointInit, stepContainers) ←
     orderContainers cb (entrypointImage (b_images b)) credEntrypointArgs
       stepContainers taskSpec (if alphaAPIEnabled then tr_debug taskRun else None);
  inr (mkPrepared (entrypointInit :: initContainers)
         (volumes ++ [toolsVolume; downwardVolume]) volumeMounts
         stepContainers sidecarContainers).

(** Lines 185-245: resource floor, implicit and hermetic env vars,
    implicit volume mounts, working directory and names.  Returns the
    credentials volumes added and the step containers. *)
Definition finishSteps (b : Builder) (hermetic : bool) (volumeMounts : list VolumeMount)
    (limitRangeMin : gmap string N) (stepContainers : list Container)
  : list Volume * list Container :=
  let stepContainers := resolveResourceRequests stepContainers limitRangeMin in
  let stepContainers := addImplicitEnvVars (implicitEnvVarsOf b) stepContainers in
  let stepContainers := addHermeticEnvVar hermetic stepContainers in
  let '(credsVolumes, stepContainers) :=
    addImplicitVolumeMounts volumeMounts 0 stepContainers in
  (credsVolumes, defaultWorkingDirAndName stepContainers).

(** [Build]. *)
Definition Build (b : Builder) (rnd : string) (taskRun : TaskRun) (taskSpec : TaskSpec)
  : M Pod :=
  let alphaAPIEnabled := String.eqb (enableAPIFields ctx) AlphaAPIFields in
  prep ← lift (prepare b taskRun taskSpec);
  limitRangeMin ← lift (getLimitRangeMinimum (listLimitRanges cb) (tr_namespace taskRun));
  executionMode ← readMap (tr_annotations taskRun) ExecutionModeAnnotation;
  let '(credsVolumes, stepContainers) :=
    finishSteps b (String.eqb executionMode ExecutionModeHermetic && alphaAPIEnabled)
      (p_volumeMounts prep) limitRangeMin (p_stepContainers prep) in
  let podTemplate := default emptyPodTemplate (tr_podTemplate taskRun) in
  let volumes := p_volumes prep ++ credsVolumes ++ ts_volumes taskSpec ++
                 pt_volumes podTemplate in
  _ ← lift (match validateVolumes cb volumes with Some e => inl e | None => inr tt end);
  affinityAssistantName ← readMap (tr_annotations taskRun) AnnotationAffinityAssistantName;
  let affinity :=
    if String.eqb affinityAssistantName "" then pt_affinity podTemplate
    else Some (nodeAffinityUsingAffinityAssistant affinityAssistantName) in
  let mergedPodContainers := mergeSidecars stepContainers (p_sidecarContainers prep) in
  let dnsPolicy := default "" (pt_dnsPolicy podTemplate) in
  let priorityClassName := default "" (pt_priorityClassName podTemplate) in
  (* podAnnotations := taskRun.Annotations: the same map, not a copy *)
  let podAnnotations := tr_annotations taskRun in
  version ← lift (changesetGet cb);
  writeMap podAnnotations ReleaseAnnotation version;;
  (if shouldAddReadyAnnotationOnPodCreate ctx (ts_sidecars taskSpec)
   then writeMap podAnnotations readyAnnotation readyAnnotationValue
   else mret tt);;
  mret (mkPod
    (tr_namespace taskRun)
    (restrictLengthWithRandomSuffix (tr_name taskRun ++ "-pod") rnd)
    (tr_name taskRun)
    podAnnotations
    (makeLabels taskRun)
    "Never"
    (p_initContainers prep)
    mergedPodContainers
    (tr_serviceAccountName taskRun)
    volumes
    (pt_nodeSelector podTemplate)
    affinity
    (pt_schedulerName podTemplate)
    dnsPolicy
    priorityClassName).

End Build.

(* ------------------------------------------------------------------ *)
(** ** Reference matcher: [VariableSubstitutionRegex] and [validateString] *)

(** A Go slice of strings: [nil] is a distinct value from a non-nil slice. *)
Inductive slice (A : Type) : Type :=
| NilSlice
| MkSlice (xs : list A).
Arguments NilSlice {A}.
Arguments MkSlice {A} xs.

Definition slice_to_list {A} (s : slice A) : list A :=
  match s with NilSlice => [] | MkSlice xs => xs end.

(** [append(s, x)]: the result is never nil. *)
Definition goAppend {A} (s : slice A) (x : A) : slice A :=
  MkSlice (slice_to_list s ++ [x]).

(** [[_a-zA-Z0-9.-]] *)
Definition isNameChar (c : ascii) : bool :=
  let n := nat_of_ascii c in
  Ascii.eqb c "_"%char || Ascii.eqb c "."%char || Ascii.eqb c "-"%char ||
  ((97 <=? n) && (n <=? 122))%nat || ((65 <=? n) && (n <=? 90))%nat ||
  ((48 <=? n) && (n <=? 57))%nat.

(** [[0-9]] *)
Definition isDigit (c : ascii) : bool :=
  let n := nat_of_ascii c in ((48 <=? n) && (n <=? 57))%nat.

(** Longest prefix whose characters satisfy [p], and the rest. *)
Fixpoint span (p : ascii -> bool) (cs : list ascii) : list ascii * list ascii :=
  match cs with
  | c :: cs' => if p c then let '(a, r) := span p cs' in (c :: a, r) else ([], cs)
  | [] => ([], [])
  end.

Definition isChar (c : ascii) (cs : list ascii) : option (list ascii) :=
  match cs with
  | d :: cs' => if Ascii.eqb c d then Some cs' else None
  | [] => None
  end.

(** A match of the pattern
    "\$\([_a-zA-Z0-9.-]+(\.[_a-zA-Z0-9.-]+)*(\[([0-9]+|\*)\])?\)"
    starting at the first character of [cs]: the matched text and the rest.
    The name class contains '.', so the name part is one maximal run of
    name characters; it is followed by ')' or by an index and ')'.  None of
    '[', ']', ')' is a name or index character, so a match at a given start
    is unique and the leftmost-first match is the one found here. *)
Definition matchAt (cs : list ascii) : option (list ascii * list ascii) :=
  cs1 ← isChar "$"%char cs;
  cs2 ← isChar "("%char cs1;
  let '(name, cs3) := span isNameChar cs2 in
  if bool_decide (name = []) then None else
  match isChar ")"%char cs3 with
  | Some rest => Some (["$"; "("]%char ++ name ++ [")"%char], rest)
  | None =>
      cs4 ← isChar "["%char cs3;
      '(idx, cs5) ←
        match isChar "*"%char cs4 with
        | Some r => Some (["*"%char], r)
        | None =>
            let '(ds, r) := span isDigit cs4 in
            if bool_decide (ds = []) then None else Some (ds, r)
        end;
      cs6 ← isChar "]"%char cs5;
      rest ← isChar ")"%char cs6;
      Some (["$"; "("]%char ++ name ++ ["["%char] ++ idx ++ ["]"; ")"]%char, rest)
  end.

(** Leftmost-first, non-overlapping matches: try each start in turn, and
    continue after a match.  Every round consumes a character, so the
    length of the input bounds the rounds. *)
Fixpoint findAllFrom (fuel : nat) (cs : list ascii) : list string :=
  match fuel with
  | O => []
  | S fuel' =>
      match cs with
      | [] => []
      | _ :: cs' =>
          match matchAt cs with
          | Some (m, rest) => string_of_list_ascii m :: findAllFrom fuel' rest
          | None => findAllFrom fuel' cs'
          end
      end
  end.

(** [VariableSubstitutionRegex.FindAllString(value, -1)]: [nil] when there
    is no match. *)
Definition FindAllString (value : string) : slice string :=
  match findAllFrom (String.length value) (list_ascii_of_string value) with
  | [] => NilSlice
  | ms => MkSlice ms
  end.

Definition TrimPrefix (s p : string) : string :=
  if String.prefix p s
  then String.substring (String.length p) (String.length s - String.length p) s
  else s.

Definition TrimSuffix (s suf : string) : string :=
  if (String.length suf <=? String.length s)%nat &&
     String.eqb (String.substring (String.length s - String.length suf)
                   (String.length suf) s) suf
  then String.substring 0 (String.length s - String.length suf) s
  else s.

Definition stripVarSubExpression (expression : string) : string :=
  TrimSuffix (TrimPrefix expression "$(") ")".

Definition validateString (value : string) : slice string :=
  match FindAllString value with
  | NilSlice => NilSlice
  | MkSlice expressions =>
      fold_left (fun result expression => goAppend result (stripVarSubExpression expression))
        expressions NilSlice
  end.

(* ------------------------------------------------------------------ *)
(** ** Termination message *)

(** [MessageLengthError] of [pkg/termination] (this slice), a string type. *)
Inductive MessageLengthError := mkMessageLengthError (msg : string).

Definition errTooLong : MessageLengthError :=
  mkMessageLengthError
    "Termination message is above max allowed size 4096, caused by large task result.".

Definition MessageLengthError_Error (e : MessageLengthError) : string :=
  match e with mkMessageLengthError s => s end.

Inductive Reason :=
| Completed
| Errored
| ErroredIgnored
| TimedOut
| ExternallyTerminated.

Definition reason_string (r : Reason) : string :=
  match r with
  | Completed => "Completed"
  | Errored => "Errored"
  | ErroredIgnored => "ErroredIgnored"
  | TimedOut => "TimedOut"
  | ExternallyTerminated => "ExternallyTerminated"
  end.

Record TaskResult := mkTaskResult { result_name : string; result_value : string }.

Record StepOutcome := mkStepOutcome {
  so_exitCode : Z;
  so_reason : Reason;
  so_results : list TaskResult;
  so_message : string
}.

(** Modelled from the spec: the encoding of §4.3 (the writer of the
    termination message is not in this slice): exit code, reason, message
    and the results in their declared order, as a JSON text (values written
    verbatim). *)
Definition dq : string := String (ascii_of_nat 34) EmptyString.

Definition jsonString (v : string) : string := (dq ++ v ++ dq)%string.

Definition jsonField (k v : string) : string := (jsonString k ++ ":" ++ v)%string.

Definition encodeResult (r : TaskResult) : string :=
  ("{" ++ jsonField "key" (jsonString (result_name r)) ++ "," ++
   jsonField "value" (jsonString (result_value r)) ++ "}")%string.

Definition encodeOutcome (o : StepOutcome) : string :=
  ("{" ++ jsonField "exitCode" (pretty (so_exitCode o)) ++ "," ++
   jsonField "reason" (jsonString (reason_string (so_reason o))) ++ "," ++
   jsonField "message" (jsonString (so_message o)) ++ "," ++
   jsonField "results" ("[" ++ String.concat "," (map encodeResult (so_results o)) ++ "]")
   ++ "}")%string.

Definition MaxContainerTerminationMessageLength : nat := 4096.

Inductive EncodeResult :=
| Encoded (payload : string)
| EncodeFailed (err : MessageLengthError).

(** [Encode(outcome) -> bytes | LengthError]: a payload over the ceiling is
    refused as a whole. *)
Definition Encode (o : StepOutcome) : EncodeResult :=
  let payload := encodeOutcome o in
  if (String.length payload <=? MaxContainerTerminationMessageLength)%nat
  then Encoded payload
  else EncodeFailed errTooLong.

(* ------------------------------------------------------------------ *)
(** ** Entrypoint wrapper *)

(** Modelled from the spec: the entrypoint wrapper of §4.2 (the binary is not
    in this slice; the fixture [pipelinerun-with-failing-step-] exercises it).
    Step [i] waits for the completion marker of step [i - 1] (no wait for
    step 0), runs the real command, reads the declared results that exist,
    and picks the reason: exit 0 is Completed; a non-zero exit is Errored
    under StopAndFail (no marker, the real code towards the platform) and
    ErroredIgnored under Continue (marker written, 0 towards the platform,
    the real code kept in the outcome); a timeout is TimedOut, handled as a
    non-zero exit of its policy; an outside signal is ExternallyTerminated,
    with no marker. *)
Inductive OnErrorPolicy := StopAndFail | Continue.

(** How the real command ended, with the code it ended with. *)
Inductive RunEnd :=
| Exited (code : Z)
| DeadlineExceeded (code : Z)
| Signalled (code : Z).

(** The completion markers present on the shared volume, by step index. *)
Abbreviation Markers := (gset nat).

Definition waitCondition (markers : gset nat) (i : nat) : bool :=
  match i with
  | O => true
  | S j => bool_decide (j ∈ markers)
  end.

Record StepRun := mkStepRun {
  run_outcome : StepOutcome;
  run_markers : gset nat;
  run_platformExit : Z
}.

(** Declared results: name, and the content of its path if the file exists. *)
Definition readResults (declared : list (string * option string)) : list TaskResult :=
  omap (fun '(n, v) => mkTaskResult n <$> v) declared.

Definition runWrapper (i : nat) (policy : OnErrorPolicy)
    (declared : list (string * option string)) (ev : RunEnd) (markers : gset nat)
  : option StepRun :=
  if negb (waitCondition markers i) then None else
  let results := readResults declared in
  let done_ (code : Z) (r : Reason) := mkStepOutcome code r results "" in
  match ev with
  | Exited code =>
      if Z.eqb code 0 then Some (mkStepRun (done_ code Completed) ({[i]} ∪ markers) 0)
      else match policy with
           | Continue => Some (mkStepRun (done_ code ErroredIgnored) ({[i]} ∪ markers) 0)
           | StopAndFail => Some (mkStepRun (done_ code Errored) markers code)
           end
  | DeadlineExceeded code =>
      match policy with
      | Continue => Some (mkStepRun (done_ code TimedOut) ({[i]} ∪ markers) 0)
      | StopAndFail => Some (mkStepRun (done_ code TimedOut) markers code)
      end
  | Signalled code => Some (mkStepRun (done_ code ExternallyTerminated) markers code)
  end.

(* ------------------------------------------------------------------ *)
(** ** A concrete environment *)

Definition emptyResources : ResourceRequirements := mkResources ∅ ∅.

(** Collaborators behaving as the real ones do on a task with no step
    template, no scripts, no working directories and explicit commands:
    steps and sidecars pass through, the entrypoint init container is
    [place-tools], each step gets a credentials volume at [CredsDir], the
    namespace holds the LimitRanges [lrs], and the release is [v0.27.0]. *)
Definition plainCollaborators (lrs : list LimitRange) : Collaborators :=
  mkCollaborators
    (fun _ _ => inr ([], [], []))
    (fun _ steps => inr steps)
    (fun _ _ steps sidecars _ =>
       (None, map step_container steps, map sidecar_container sidecars))
    (fun _ _ => None)
    (fun _ _ cs => inr cs)
    (fun img _ cs _ _ =>
       inr (mkContainer "place-tools" img [] "" [] [] emptyResources, cs))
    (fun _ => inr lrs)
    (fun _ => Some (mkVolume "tekton-creds-init-home", mkVolumeMount "tekton-creds-init-home" CredsDir))
    (fun _ => None)
    (inr "v0.27.0")
    (fun name _ => ("step-" ++ name)%string)
    (fun s => s).

Definition plainFlags : FeatureFlags := mkFeatureFlags "stable" false false.
Definition alphaFlags : FeatureFlags := mkFeatureFlags "alpha" false false.

Definition plainBuilder (overrideHome : bool) : Builder :=
  mkBuilder (mkImages "entrypoint" "busybox" "win") overrideHome.

Definition plainContainer (name : string) (env : list EnvVar) (vms : list VolumeMount)
    (reqs : gmap string N) : Container :=
  mkContainer name "alpine" ["run"] "" env vms (mkResources ∅ reqs).

Definition plainStep (c : Container) : Step := mkStep c "" "".

(* ------------------------------------------------------------------ *)
(** ** Readings of the claims *)

(** The minimums the namespace declares for resource [k]: one per item of
    type Container that has a [Min], in listing order. *)
Definition itemMinimums (items : list LimitRangeItem) (k : string) : list N :=
  omap (fun item =>
    if String.eqb (lri_type item) LimitTypeContainer
    then (fun m => qty m k) <$> lri_min item else None) items.

Definition declaredMinimums (lrs : list LimitRange) (k : string) : list N :=
  flat_map (fun lr => itemMinimums (lr_limits lr) k) lrs.

(** The mounts step [i] holds when the implicit mounts are considered:
    its own, and the credentials-staging mount of its index if any. *)
Definition ownMounts (cb : Collaborators) (i : nat) (c : Container) : list VolumeMount :=
  match getCredsInitVolume cb i with
  | Some (_, vm) => c_volumeMounts c ++ [vm]
  | None => c_volumeMounts c
  end.

Definition hermeticVar : EnvVar := mkEnvVar TektonHermeticEnvVar "1".

(** Whether the hermetic layer applies (line 198), read in the heap [st]. *)
Definition hermeticRequested (ctx : FeatureFlags) (tr : TaskRun) (st : Store) : bool :=
  String.eqb (mapGet (tr_annotations tr) ExecutionModeAnnotation st) ExecutionModeHermetic &&
  String.eqb (enableAPIFields ctx) AlphaAPIFields.

(** The value a container sees for the variable [n]: a later entry of the
    list overrides an earlier one, as the comments of lines 188-189 and 200
    rely on. *)
Fixpoint envValue (env : list EnvVar) (n : string) : option string :=
  match env with
  | [] => None
  | e :: rest =>
      match envValue rest n with
      | Some v => Some v
      | None => if String.eqb (ev_name e) n then Some (ev_value e) else None
      end
  end.

(** [x] stands before [y] in the list [env]. *)
Definition envPrecedes (env : list EnvVar) (x y : EnvVar) : Prop :=
  ∃ i j, env !! i = Some x ∧ env !! j = Some y ∧ (i < j)%nat.

(** A pod with its generated name blanked. *)
Definition unnamed (p : Pod) : Pod :=
  mkPod (pod_namespace p) "" (pod_ownerName p) (pod_annotations p) (pod_labels p)
    (pod_restartPolicy p) (pod_initContainers p) (pod_containers p)
    (pod_serviceAccountName p) (pod_volumes p) (pod_nodeSelector p) (pod_affinity p)
    (pod_schedulerName p) (pod_dnsPolicy p) (pod_priorityClassName p).

Definition outcome_map {A B} (f : A -> B) (o : outcome A) : outcome B :=
  match o with Ok a => Ok (f a) | Err e => Err e | Panic p => Panic p end.

(* ------------------------------------------------------------------ *)
(** ** Concrete inputs *)

(** Two namespace LimitRanges declaring container minimums of 100m and
    250m CPU. *)
(** Step [i] of [steps] is the first one holding the largest request for
    [k], and that request is above zero. *)
Definition firstLargestRequest (steps : list Container) (i : nat) (k : string) : Prop :=
  ∃ c, steps !! i = Some c ∧
    (0 < qty (res_requests (c_resources c)) k)%N ∧
    (∀ j cj, (j < i)%nat -> steps !! j = Some cj ->
       (qty (res_requests (c_resources cj)) k < qty (res_requests (c_resources c)) k)%N) ∧
    (∀ j cj, steps !! j = Some cj ->
       (qty (res_requests (c_resources cj)) k <= qty (res_requests (c_resources c)) k)%N).

Definition cpuMinimums : list LimitRange :=
  [ mkLimitRange [mkLimitRangeItem LimitTypeContainer (Some {["cpu" := 100%N]})];
    mkLimitRange [mkLimitRangeItem LimitTypeContainer (Some {["cpu" := 250%N]})] ].

(** A TaskRun whose annotation map sits at location 1. *)
Definition sampleTaskRun : TaskRun :=
  mkTaskRun "tr" "ns" (Some 1%positive) ∅ "default" None None.

Definition hermeticHeap : gmap positive (gmap string string) :=
  {[1%positive := {[ExecutionModeAnnotation := ExecutionModeHermetic]}]}.

Definition emptyHeap : gmap positive (gmap string string) := {[1%positive := ∅]}.

(** The TaskRun belongs to the affinity assistant [affinity-assistant-1]. *)
Definition affinityHeap : gmap positive (gmap string string) :=
  {[1%positive := {[AnnotationAffinityAssistantName := "affinity-assistant-1"]}]}.

Definition userHome : EnvVar := mkEnvVar "HOME" "/home/user".
Definition injectedHome : EnvVar := mkEnvVar "HOME" HomeDir.

(** One step [a] declaring HOME, a mount at "/workspace/" and 50m CPU, and
    one sidecar [sc] without mounts. *)
Definition sampleTaskSpec : TaskSpec :=
  mkTaskSpec
    [plainStep (plainContainer "a" [userHome] [mkVolumeMount "w" "/workspace/"]
                  {["cpu" := 50%N]})]
    None
    [mkSidecar (plainContainer "sc" [] [] ∅) ""]
    [].

(** Two steps asking for 400m and 500m CPU. *)
Definition twoStepTaskSpec : TaskSpec :=
  mkTaskSpec
    [plainStep (plainContainer "a" [] [] {["cpu" := 400%N]});
     plainStep (plainContainer "b" [] [] {["cpu" := 500%N]})]
    None [] [].

(** The collaborators [cb] with another LimitRange listing. *)
Definition withLimitRanges (cb : Collaborators) (l : string -> string + list LimitRange)
  : Collaborators :=
  mkCollaborators (credsInit cb) (mergeStepsWithStepTemplate cb) (convertScripts cb)
    (workingDirInit cb) (resolveEntrypoints cb) (orderContainers cb) l
    (getCredsInitVolume cb) (validateVolumes cb) (changesetGet cb) (stepName cb)
    (restrictLength cb).

(** A cluster whose LimitRange listing fails. *)
Definition unreachableCluster : Collaborators :=
  withLimitRanges (plainCollaborators []) (fun _ => inl "connection refused").

(** A TaskRun with a nil annotation map. *)
Definition nilAnnotationsTaskRun : TaskRun :=
  mkTaskRun "tr" "ns" None ∅ "default" None None.

(** A TaskRun with a label of its own and a stale [tekton.dev/taskRun] label. *)
Definition labelledTaskRun : TaskRun :=
  mkTaskRun "tr" "ns" (Some 1%positive)
    {["team" := "ci"; TaskRunLabelKey := "other"]} "default" None None.

(** [sampleTaskSpec] without its sidecar. *)
Definition noSidecarTaskSpec : TaskSpec :=
  mkTaskSpec (ts_steps sampleTaskSpec) None [] [mkVolume "cache"].

(** Running [Build] and [prepare] on closed inputs. *)
(** Projections out of a known result, to evaluate a field of it. *)
Definition inr_proj {A B} (r : A + B) (b : B) (H : r = inr b)
  : b = match r with inr x => x | inl _ => b end :=
  @eq_ind_r (A + B) (inr b) (fun r' => b = match r' with inr x => x | inl _ => b end)
    eq_refl r H.

Definition ok_proj {A} (r : Store * outcome A) (st : Store) (a : A) (H : r = (st, Ok a))
  : a = match snd r with Ok x => x | _ => a end :=
  @eq_ind_r (Store * outcome A) (st, Ok a)
    (fun r' => a = match snd r' with Ok x => x | _ => a end) eq_refl r H.

Ltac run_build HB :=
  lazymatch goal with
  | |- context [Build ?cb ?ctx ?b ?rnd ?tr ?ts ?st] =>
      destruct (Build cb ctx b rnd tr ts st) as [?st' [?pod|?e|?e]] eqn:HB;
      [|apply (f_equal (fun r => match snd r with Ok _ => true | _ => false end)) in HB;
        vm_compute in HB; discriminate HB..]
  end.

Ltac run_prepare Hp :=
  lazymatch goal with
  | |- context [prepare ?cb ?ctx ?b ?tr ?ts] =>
      destruct (prepare cb ctx b tr ts) as [?e|?prep] eqn:Hp;
      [apply (f_equal (fun r => match r with inl _ => true | inr _ => false end)) in Hp;
       vm_compute in Hp; discriminate Hp|]
  end.

(* ================================================================== *)
(** * Properties *)

(* ------------------------------------------------------------------ *)
(** ** Floors *)

Lemma raiseMin_qty (min lrMin : gmap string N) (k : string) :
  qty (raiseMin min lrMin) k = N.max (qty min k) (qty lrMin k).
Proof.
  revert k. unfold raiseMin.
  apply (map_fold_weak_ind
           (fun (r : gmap string N) (m : gmap string N) =>
              ∀ k, qty r k = N.max (qty min k) (qty m k))).
  - intros k. unfold qty at 3. rewrite lookup_empty. simpl. lia.
  - intros i x m r Hi IH k. unfold qty in *.
    destruct (decide (i = k)) as [<-|Hne].
    + rewrite lookup_insert_eq. simpl. specialize (IH i). rewrite Hi in IH. simpl in IH.
      destruct (default 0%N (r !! i) <? x)%N eqn:E.
      * rewrite lookup_insert_eq. simpl. apply N.ltb_lt in E. lia.
      * apply N.ltb_ge in E. lia.
    + rewrite (lookup_insert_ne m) by done.
      destruct (default 0%N (r !! i) <? x)%N.
      * rewrite lookup_insert_ne by done. apply IH.
      * apply IH.
Qed.

Lemma itemsMin_qty (items : list LimitRangeItem) (min : gmap string N) (k : string) :
  qty (itemsMin min items) k = fold_left N.max (itemMinimums items k) (qty min k).
Proof.
  revert min. induction items as [|item items IH]; intros min; [reflexivity|].
  unfold itemsMin in *. simpl.
  destruct (String.eqb (lri_type item) LimitTypeContainer); simpl; [|apply IH].
  destruct (lri_min item) as [m|]; simpl; rewrite IH; [|reflexivity].
  rewrite raiseMin_qty. reflexivity.
Qed.

Lemma limitRangesMin_qty (lrs : list LimitRange) (k : string) :
  qty (limitRangesMin lrs) k = fold_left N.max (declaredMinimums lrs k) 0%N.
Proof.
  assert (Hgen : ∀ min, qty (fold_left (fun min lr => itemsMin min (lr_limits lr)) lrs min) k
                      = fold_left N.max (declaredMinimums lrs k) (qty min k)).
  { induction lrs as [|lr lrs IH]; intros min; [reflexivity|].
    simpl. rewrite IH, itemsMin_qty. unfold declaredMinimums. simpl.
    rewrite fold_left_app. reflexivity. }
  unfold limitRangesMin. rewrite Hgen.
  assert (qty allZeroQty k = 0%N) as ->; [|reflexivity].
  unfold qty, allZeroQty.
  destruct (decide (k = "cpu")) as [->|?]; [by rewrite lookup_insert_eq|].
  rewrite lookup_insert_ne by done.
  destruct (decide (k = "memory")) as [->|?]; [by rewrite lookup_insert_eq|].
  rewrite lookup_insert_ne by done.
  destruct (decide (k = "ephemeral-storage")) as [->|?]; [by rewrite lookup_insert_eq|].
  rewrite lookup_insert_ne by done. by rewrite lookup_empty.
Qed.

Lemma qty_empty (k : string) : qty ∅ k = 0%N.
Proof. unfold qty. by rewrite lookup_empty. Qed.

Lemma qty_None (m : gmap string N) (k : string) : m !! k = None -> qty m k = 0%N.
Proof. unfold qty. by intros ->. Qed.

Lemma qty_insert_eq (m : gmap string N) (k : string) (v : N) : qty (<[k := v]> m) k = v.
Proof. unfold qty. by rewrite lookup_insert_eq. Qed.

Lemma qty_insert_ne (m : gmap string N) (k k' : string) (v : N) :
  k ≠ k' -> qty (<[k := v]> m) k' = qty m k'.
Proof. intros H. unfold qty. by rewrite lookup_insert_ne. Qed.

Lemma maxRequests_lookup (i : nat) (reqs mx : gmap string N) (ix : gmap string Z) (k : string) :
  qty (fst (maxRequests i reqs (mx, ix))) k =
    (if (qty mx k <? qty reqs k)%N then qty reqs k else qty mx k) ∧
  snd (maxRequests i reqs (mx, ix)) !! k =
    (if (qty mx k <? qty reqs k)%N then Some (Z.of_nat i) else ix !! k).
Proof.
  revert k. unfold maxRequests.
  apply (map_fold_weak_ind
           (fun (acc : gmap string N * gmap string Z) (m : gmap string N) =>
              ∀ k, qty (fst acc) k =
                     (if (qty mx k <? qty m k)%N then qty m k else qty mx k) ∧
                   snd acc !! k =
                     (if (qty mx k <? qty m k)%N then Some (Z.of_nat i) else ix !! k))).
  - intros k. rewrite qty_empty.
    destruct (qty mx k <? 0)%N eqn:E; [apply N.ltb_lt in E; lia|]. split; reflexivity.
  - intros j x m [r1 r2] Hj IH k. simpl in IH.
    destruct (decide (j = k)) as [<-|Hne].
    + destruct (IH j) as [IH1 IH2]. rewrite (qty_None m j Hj) in IH1, IH2.
      destruct (qty mx j <? 0)%N eqn:E0; [apply N.ltb_lt in E0; lia|].
      rewrite qty_insert_eq. rewrite IH1. destruct (qty mx j <? x)%N; simpl.
      * rewrite qty_insert_eq, lookup_insert_eq. split; reflexivity.
      * rewrite IH1, IH2. split; reflexivity.
    + rewrite qty_insert_ne by done.
      destruct (IH k) as [IH1 IH2].
      destruct (qty r1 j <? x)%N; simpl.
      * rewrite qty_insert_ne, lookup_insert_ne by done. split; assumption.
      * split; assumption.
Qed.

Section FindMax.
Variable L : list Container.
Variable k : string.

Local Abbreviation q c := (qty (res_requests (c_resources c)) k).
Local Abbreviation Inv n acc :=
  ((snd acc !! k = Some (-1)%Z ∧ qty (fst acc) k = 0%N ∧
      ∀ j cj, (j < n)%nat -> L !! j = Some cj -> q cj = 0%N) ∨
   (∃ i ci, L !! i = Some ci ∧ snd acc !! k = Some (Z.of_nat i) ∧ qty (fst acc) k = q ci ∧
      (0 < q ci)%N ∧ (∀ j cj, (j < i)%nat -> L !! j = Some cj -> (q cj < q ci)%N) ∧
      (∀ j cj, (j < n)%nat -> L !! j = Some cj -> (q cj <= q ci)%N))).

Lemma findMax_step (n : nat) (acc : gmap string N * gmap string Z) (c : Container) :
  L !! n = Some c -> Inv n acc -> Inv (S n) (maxRequests n (res_requests (c_resources c)) acc).
Proof.
  intros Hn Hinv. destruct acc as [mx ix].
  destruct (maxRequests_lookup n (res_requests (c_resources c)) mx ix k) as [H1 H2].
  destruct (maxRequests n _ (mx, ix)) as [mx' ix']. simpl in *.
  destruct Hinv as [(Hix & Hmx & Hz) | (i & ci & Hi & Hix & Hmx & Hpos & Hlt & Hle)].
  - rewrite Hmx in H1, H2. destruct (0 <? q c)%N eqn:E; cbv iota in H1, H2.
    + apply N.ltb_lt in E. right. exists n, c. split_and!; try done.
      * intros j cj Hj Hcj. rewrite (Hz j cj Hj Hcj). exact E.
      * intros j cj Hj Hcj. destruct (decide (j = n)) as [->|Hne].
        { rewrite Hn in Hcj. injection Hcj as <-. lia. }
        rewrite (Hz j cj ltac:(lia) Hcj). lia.
    + apply N.ltb_ge in E. left.
      split_and!; try done; try (by rewrite H2); try (by rewrite H1); try lia.
      intros j cj Hj Hcj. destruct (decide (j = n)) as [->|Hne].
      { rewrite Hn in Hcj. injection Hcj as <-. lia. }
      apply (Hz j cj); [lia|exact Hcj].
  - rewrite Hmx in H1, H2. destruct (q ci <? q c)%N eqn:E; cbv iota in H1, H2.
    + apply N.ltb_lt in E. right. exists n, c. split_and!; try done; [lia| |].
      * intros j cj Hj Hcj. specialize (Hle j cj Hj Hcj). lia.
      * intros j cj Hj Hcj. destruct (decide (j = n)) as [->|Hne].
        { rewrite Hn in Hcj. injection Hcj as <-. lia. }
        specialize (Hle j cj ltac:(lia) Hcj). lia.
    + apply N.ltb_ge in E. right. exists i, ci.
      split_and!; try done; try (by rewrite H2); try (by rewrite H1).
      intros j cj Hj Hcj. destruct (decide (j = n)) as [->|Hne].
      { rewrite Hn in Hcj. injection Hcj as <-. lia. }
      apply (Hle j cj); [lia|exact Hcj].
Qed.

Lemma findMax_run (suffix : list Container) :
  ∀ (n : nat) (acc : gmap string N * gmap string Z),
  drop n L = suffix -> Inv n acc ->
  ∃ n', (length L <= n')%nat ∧ Inv n' (findMaxRequests n suffix acc).
Proof.
  induction suffix as [|c rest IH]; intros n acc Hd Hinv; simpl.
  - exists n. split; [|exact Hinv].
    apply (f_equal length) in Hd. rewrite length_drop in Hd. simpl in Hd. lia.
  - apply IH.
    + change rest with (drop 1 (c :: rest)). rewrite <- Hd, drop_drop.
      f_equal. lia.
    + apply findMax_step; [|exact Hinv].
      rewrite <- (Nat.add_0_r n), <- lookup_drop, Hd. reflexivity.
Qed.

Lemma findMax_final (Hk : k ∈ resourceNames) (i : nat) (c : Container) :
  L !! i = Some c ->
  let r := findMaxRequests 0 L
             (allZeroQty, fold_left (fun m rn => <[rn := (-1)%Z]> m) resourceNames ∅) in
  ((Z.of_nat i =? default 0%Z (snd r !! k))%Z = true <-> firstLargestRequest L i k) ∧
  ((Z.of_nat i =? default 0%Z (snd r !! k))%Z = true -> qty (fst r) k = q c).
Proof.
  intros Hi r.
  assert (Hinit : Inv 0%nat (allZeroQty, fold_left (fun (m : gmap string Z) rn => <[rn := (-1)%Z]> m) resourceNames ∅)).
  { left. simpl. split_and!; [| |intros j cj Hj; lia].
    - unfold resourceNames in Hk. rewrite !elem_of_cons, elem_of_nil in Hk.
      destruct Hk as [->|[->|[->|[]]]]; reflexivity.
    - unfold resourceNames in Hk. rewrite !elem_of_cons, elem_of_nil in Hk.
      destruct Hk as [->|[->|[->|[]]]]; reflexivity. }
  destruct (findMax_run L 0 _ eq_refl Hinit) as (n' & Hn' & Hinv). fold r in Hinv.
  assert (Hin : (i < n')%nat) by (apply lookup_lt_Some in Hi; lia).
  destruct Hinv as [(Hix & Hmx & Hz) | (i0 & ci & Hi0 & Hix & Hmx & Hpos & Hlt & Hle)].
  - rewrite Hix. simpl. split; [split; [lia|]|lia].
    intros (c' & Hc' & Hpos & _ & _). rewrite Hi in Hc'. injection Hc' as <-.
    rewrite (Hz i c Hin Hi) in Hpos. lia.
  - rewrite Hix. simpl. destruct (decide (i = i0)) as [->|Hne].
    + rewrite Z.eqb_refl. rewrite Hi in Hi0. injection Hi0 as <-.
      split; [split; [intros _|reflexivity]|intros _; exact Hmx].
      exists c. split_and!; try done.
      intros j cj Hcj. apply (Hle j cj); [apply lookup_lt_Some in Hcj; lia|exact Hcj].
    + assert (Hf : (Z.of_nat i =? Z.of_nat i0)%Z = false) by (apply Z.eqb_neq; lia).
      rewrite Hf. split; [split; [discriminate|]|discriminate].
      intros (c' & Hc' & Hpos' & Hlt' & Hle'). rewrite Hi in Hc'. injection Hc' as <-.
      exfalso. destruct (decide (i < i0)%nat) as [Hlt0|Hge0].
      * specialize (Hlt i c Hlt0 Hi). specialize (Hle' i0 ci Hi0). lia.
      * specialize (Hlt' i0 ci ltac:(lia) Hi0).
        specialize (Hle i c Hin Hi). lia.
Qed.

End FindMax.

Lemma resolveResourceRequests_lookup (L : list Container) (floor : gmap string N) i c :
  L !! i = Some c ->
  ∃ reqs', resolveResourceRequests L floor !! i = Some (set_requests c reqs') ∧
    (∀ k, k ∈ resourceNames -> firstLargestRequest L i k ->
          reqs' !! k = Some (qty (res_requests (c_resources c)) k)) ∧
    (∀ k, k ∈ resourceNames -> ¬ firstLargestRequest L i k ->
          reqs' !! k = Some (qty floor k)) ∧
    (∀ k, k ∉ resourceNames -> reqs' !! k = res_requests (c_resources c) !! k).
Proof.
  intros Hi. unfold resolveResourceRequests.
  pose proof (fun k Hk => findMax_final L k Hk i c Hi) as Hfin.
  destruct (findMaxRequests 0 L _) as [mx ix] eqn:E. simpl in Hfin.
  cbn [resourceNames fold_left]. rewrite !list_lookup_imap, Hi. simpl.
  eexists. split; [reflexivity|].
  match goal with |- (∀ k, _ -> _ -> ?R !! k = _) ∧ _ => set (reqs' := R) end.
  assert (Hval : ∀ k, k ∈ resourceNames ->
            reqs' !! k = Some (if (Z.of_nat i =? default 0%Z (ix !! k))%Z
                               then qty mx k else qty floor k)).
  { intros k Hk. unfold resourceNames in Hk. rewrite !elem_of_cons, elem_of_nil in Hk.
    subst reqs'. destruct Hk as [->|[->|[->|[]]]].
    - rewrite !lookup_insert_ne by discriminate. by rewrite lookup_insert_eq.
    - rewrite lookup_insert_ne by discriminate. by rewrite lookup_insert_eq.
    - by rewrite lookup_insert_eq. }
  split_and!.
  - intros k Hk Hf. rewrite (Hval k Hk). destruct (Hfin k Hk) as [Hiff Hq].
    apply Hiff in Hf. rewrite Hf. f_equal. by apply Hq.
  - intros k Hk Hn. rewrite (Hval k Hk). destruct (Hfin k Hk) as [Hiff _].
    destruct (Z.of_nat i =? default 0%Z (ix !! k))%Z eqn:Eq; [|reflexivity].
    exfalso. apply Hn, Hiff. reflexivity.
  - intros k Hk. unfold resourceNames in Hk. rewrite !not_elem_of_cons in Hk.
    destruct Hk as (H1 & H2 & H3 & _). subst reqs'.
    by rewrite !lookup_insert_ne by congruence.
Qed.


Lemma resolveResourceRequests_length (L : list Container) (floor : gmap string N) :
  length (resolveResourceRequests L floor) = length L.
Proof.
  unfold resolveResourceRequests. destruct (findMaxRequests 0 L _) as [mx ix].
  cbn [resourceNames fold_left]. by rewrite !length_imap.
Qed.

(* ------------------------------------------------------------------ *)
(** ** The passes over the step containers *)

Lemma lookup_map_list {A B} (f : A -> B) (l : list A) (i : nat) :
  map f l !! i = f <$> l !! i.
Proof. revert i. induction l as [|x l IH]; intros [|i]; simpl; auto. Qed.

Lemma set_env_id (c : Container) : set_env c (c_env c) = c.
Proof. by destruct c. Qed.

Lemma addImplicitEnvVars_lookup (imp : list EnvVar) (cs : list Container) (i : nat) :
  addImplicitEnvVars imp cs !! i = (fun s => set_env s (imp ++ c_env s)) <$> cs !! i.
Proof.
  unfold addImplicitEnvVars. destruct imp as [|e imp]; simpl.
  - destruct (cs !! i); simpl; [by rewrite set_env_id|reflexivity].
  - apply lookup_map_list.
Qed.

Lemma addHermeticEnvVar_lookup (hermetic : bool) (cs : list Container) (i : nat) :
  addHermeticEnvVar hermetic cs !! i =
  (fun s => set_env s (c_env s ++ if hermetic then [hermeticVar] else [])) <$> cs !! i.
Proof.
  unfold addHermeticEnvVar. destruct hermetic.
  - apply lookup_map_list.
  - destruct (cs !! i); simpl; [|reflexivity].
    by rewrite app_nil_r, set_env_id.
Qed.

Lemma addImplicitVolumeMounts_length cb vms (start : nat) (cs : list Container) :
  length (snd (addImplicitVolumeMounts cb vms start cs)) = length cs.
Proof.
  revert start. induction cs as [|s cs IH]; intros start; [reflexivity|]. simpl.
  destruct (getCredsInitVolume cb start) as [[v vm]|];
  destruct (addImplicitVolumeMounts cb vms (S start) cs) eqn:E; simpl;
  specialize (IH (S start)); rewrite E in IH; simpl in IH; lia.
Qed.

Lemma addImplicitVolumeMounts_lookup cb vms (start : nat) (cs : list Container) i c :
  cs !! i = Some c ->
  snd (addImplicitVolumeMounts cb vms start cs) !! i =
  Some (set_volumeMounts c (stepVolumeMounts vms (ownMounts cb (start + i) c))).
Proof.
  revert start i. induction cs as [|s cs IH]; intros start i Hi; [done|]. simpl.
  unfold ownMounts.
  destruct (getCredsInitVolume cb start) as [[v vm]|] eqn:Ec;
  destruct (addImplicitVolumeMounts cb vms (S start) cs) eqn:E; simpl;
  (destruct i as [|i];
   [ simpl in Hi; injection Hi as <-; rewrite Nat.add_0_r, Ec; reflexivity
   | simpl in Hi |- *; specialize (IH (S start) i Hi); rewrite E in IH; simpl in IH;
     rewrite IH; unfold ownMounts; by rewrite Nat.add_succ_r ]).
Qed.

Lemma addImplicitVolumeMounts_creds cb vms (start : nat) (cs : list Container) i v vm :
  (i < length cs)%nat -> getCredsInitVolume cb (start + i) = Some (v, vm) ->
  v ∈ fst (addImplicitVolumeMounts cb vms start cs).
Proof.
  revert start i. induction cs as [|s cs IH]; intros start i Hi Hv; simpl in *; [lia|].
  destruct (getCredsInitVolume cb start) as [[v0 vm0]|] eqn:Ec;
  destruct (addImplicitVolumeMounts cb vms (S start) cs) as [vs rest] eqn:E; simpl;
  (destruct i as [|i];
   [ rewrite Nat.add_0_r, Ec in Hv; try discriminate; injection Hv as -> ->;
     set_solver
   | assert (v ∈ fst (addImplicitVolumeMounts cb vms (S start) cs))
       by (apply (IH (S start) i); [lia|];
           replace (S start + i)%nat with (start + S i)%nat by lia; exact Hv);
     rewrite E in *; simpl in *; set_solver ]).
Qed.

(** What the passes of lines 185-245 make of step [i]. *)
Lemma finishSteps_lookup cb ctx b hermetic vms floor (cs : list Container) i c :
  cs !! i = Some c ->
  ∃ c', snd (finishSteps cb ctx b hermetic vms floor cs) !! i = Some c' ∧
    Some (c_resources c') = c_resources <$> resolveResourceRequests cs floor !! i ∧
    c_env c' = implicitEnvVarsOf b ++ c_env c ++ (if hermetic then [hermeticVar] else []) ∧
    c_volumeMounts c' = stepVolumeMounts vms (ownMounts cb i c).
Proof.
  intros Hi. unfold finishSteps.
  destruct (resolveResourceRequests_lookup cs floor i c Hi) as (reqs' & Hr & _).
  set (cs1 := resolveResourceRequests cs floor) in *.
  set (cs2 := addImplicitEnvVars (implicitEnvVarsOf b) cs1).
  set (cs3 := addHermeticEnvVar hermetic cs2).
  assert (H3 : cs3 !! i = Some (set_env (set_env (set_requests c reqs')
                 (implicitEnvVarsOf b ++ c_env c))
                 (implicitEnvVarsOf b ++ c_env c ++ (if hermetic then [hermeticVar] else [])))).
  { subst cs3 cs2. rewrite addHermeticEnvVar_lookup, addImplicitEnvVars_lookup, Hr. simpl.
    by rewrite app_assoc. }
  destruct (addImplicitVolumeMounts cb vms 0 cs3) as [vs cs4] eqn:E4. simpl.
  pose proof (addImplicitVolumeMounts_lookup cb vms 0 cs3 i _ H3) as H4.
  rewrite E4 in H4. simpl in H4.
  unfold defaultWorkingDirAndName. rewrite list_lookup_imap, H4. simpl.
  eexists; split; [reflexivity|]. rewrite Hr.
  destruct (String.eqb _ "" && _); simpl; unfold ownMounts; simpl; auto.
Qed.

Lemma finishSteps_length cb ctx b hermetic vms floor (cs : list Container) :
  length (snd (finishSteps cb ctx b hermetic vms floor cs)) = length cs.
Proof.
  unfold finishSteps.
  destruct (addImplicitVolumeMounts _ _ _ _) as [vs cs4] eqn:E4. simpl.
  unfold defaultWorkingDirAndName. rewrite length_imap.
  change cs4 with (snd (vs, cs4)). rewrite <- E4, addImplicitVolumeMounts_length.
  unfold addHermeticEnvVar, addImplicitEnvVars.
  destruct hermetic, (0 <? length (implicitEnvVarsOf b))%nat; simpl;
  rewrite ?length_map, resolveResourceRequests_length; reflexivity.
Qed.

(* ------------------------------------------------------------------ *)
(** ** What a successful [Build] returns *)

Lemma Build_Ok_inv cb ctx b rnd tr ts (st st' : gmap positive (gmap string string)) pod :
  Build cb ctx b rnd tr ts st = (st', Ok pod) ->
  ∃ prep floor,
    prepare cb ctx b tr ts = inr prep ∧
    getLimitRangeMinimum (listLimitRanges cb) (tr_namespace tr) = inr floor ∧
    pod_containers pod =
      mergeSidecars cb
        (snd (finishSteps cb ctx b (hermeticRequested ctx tr st)
                (p_volumeMounts prep) floor (p_stepContainers prep)))
        (p_sidecarContainers prep) ∧
    pod_volumes pod =
      p_volumes prep ++
      fst (finishSteps cb ctx b (hermeticRequested ctx tr st)
             (p_volumeMounts prep) floor (p_stepContainers prep)) ++
      ts_volumes ts ++ pt_volumes (default emptyPodTemplate (tr_podTemplate tr)) ∧
    pod_affinity pod =
      (let affinityAssistantName :=
         mapGet (tr_annotations tr) AnnotationAffinityAssistantName st in
       if String.eqb affinityAssistantName ""
       then pt_affinity (default emptyPodTemplate (tr_podTemplate tr))
       else Some (nodeAffinityUsingAffinityAssistant affinityAssistantName)).
Proof.
  unfold Build, mbind, M_bind, mret, M_ret, lift, readMap, hermeticRequested.
  destruct (prepare cb ctx b tr ts) as [e|prep] eqn:Hp; [intros H; discriminate H|].
  destruct (getLimitRangeMinimum _ _) as [e|floor] eqn:Hf; [intros H; discriminate H|].
  destruct (finishSteps _ _ _ _ _ _ _) as [cv scs] eqn:Hfs.
  destruct (validateVolumes cb _) eqn:Hv; [intros H; discriminate H|].
  destruct (changesetGet cb) eqn:Hc; [intros H; discriminate H|].
  unfold writeMap. destruct (tr_annotations tr) eqn:Ha; [|intros H; discriminate H].
  destruct (shouldAddReadyAnnotationOnPodCreate ctx (ts_sidecars ts));
  intros H; injection H as _ <-; exists prep, floor; rewrite Hfs; simpl;
  repeat split; reflexivity.
Qed.

(** Step [i] of the pod, from step [i] entering the resource pass. *)
Lemma Build_step_lookup cb ctx b rnd tr ts (st st' : gmap positive (gmap string string))
    pod prep floor i c :
  Build cb ctx b rnd tr ts st = (st', Ok pod) ->
  prepare cb ctx b tr ts = inr prep ->
  getLimitRangeMinimum (listLimitRanges cb) (tr_namespace tr) = inr floor ->
  p_stepContainers prep !! i = Some c ->
  ∃ c', pod_containers pod !! i = Some c' ∧
    Some (c_resources c') = c_resources <$> resolveResourceRequests (p_stepContainers prep) floor !! i ∧
    c_env c' = implicitEnvVarsOf b ++ c_env c ++
               (if hermeticRequested ctx tr st then [hermeticVar] else []) ∧
    c_volumeMounts c' = stepVolumeMounts (p_volumeMounts prep) (ownMounts cb i c).
Proof.
  intros HB Hp Hf Hi.
  destruct (Build_Ok_inv cb ctx b rnd tr ts st st' pod HB)
    as (prep' & floor' & Hp' & Hf' & Hc & _).
  rewrite Hp in Hp'. injection Hp' as <-. rewrite Hf in Hf'. injection Hf' as <-.
  destruct (finishSteps_lookup cb ctx b (hermeticRequested ctx tr st)
              (p_volumeMounts prep) floor (p_stepContainers prep) i c Hi)
    as (c' & Hc' & Hres & Henv & Hvm).
  exists c'. rewrite Hc. unfold mergeSidecars. rewrite lookup_app_l; [auto|].
  rewrite finishSteps_length. by eapply lookup_lt_Some.
Qed.

(** Sidecar [j] of the pod: only renamed. *)
Lemma Build_sidecar_lookup cb ctx b rnd tr ts (st st' : gmap positive (gmap string string))
    pod prep j sc :
  Build cb ctx b rnd tr ts st = (st', Ok pod) ->
  prepare cb ctx b tr ts = inr prep ->
  p_sidecarContainers prep !! j = Some sc ->
  pod_containers pod !! (length (p_stepContainers prep) + j)%nat =
  Some (set_name sc (restrictLength cb (sidecarPrefix ++ c_name sc)%string)).
Proof.
  intros HB Hp Hj.
  destruct (Build_Ok_inv cb ctx b rnd tr ts st st' pod HB)
    as (prep' & floor & Hp' & _ & Hc & _).
  rewrite Hp in Hp'. injection Hp' as <-.
  rewrite Hc. unfold mergeSidecars.
  rewrite lookup_app_r; rewrite finishSteps_length; [|lia].
  replace (length (p_stepContainers prep) + j - length (p_stepContainers prep))%nat
    with j by lia.
  rewrite lookup_map_list, Hj. reflexivity.
Qed.

Lemma prepare_volumeMounts cb ctx b tr ts prep :
  prepare cb ctx b tr ts = inr prep ->
  ∃ credVolumeMounts, p_volumeMounts prep = implicitVolumeMounts ++ credVolumeMounts.
Proof.
  unfold prepare, mbind, result_bind.
  destruct (credsInit cb _ _) as [e|[[args vs] vms]]; [discriminate|].
  destruct (mergeStepsWithStepTemplate cb _ _) as [e|steps]; [discriminate|].
  destruct (String.eqb (enableAPIFields ctx) AlphaAPIFields);
  destruct (convertScripts cb _ _ _ _ _) as [[si scs] sds];
  (destruct (resolveEntrypoints cb _ _ _) as [e|cs]; [discriminate|]);
  (destruct (orderContainers cb _ _ _ _ _) as [e|[ep cs']]; [discriminate|]);
  intros H; injection H as <-; simpl; eauto.
Qed.

(* ------------------------------------------------------------------ *)
(** ** C1, C3: resource floors *)

(** C1 (corrected): after [Build], for cpu, memory and ephemeral storage,
    the first step holding the largest request above zero keeps that
    request, and every other step's request is set to the namespace floor
    resolved by [getLimitRangeMinimum], whether that raises or lowers it;
    requests for any other resource and all limits are the step's own. *)
Theorem Build_requests_max_or_floor cb ctx b rnd tr ts
    (st st' : gmap positive (gmap string string)) pod prep lrs i c :
  Build cb ctx b rnd tr ts st = (st', Ok pod) ->
  prepare cb ctx b tr ts = inr prep ->
  listLimitRanges cb (tr_namespace tr) = inr lrs ->
  p_stepContainers prep !! i = Some c ->
  ∃ c', pod_containers pod !! i = Some c' ∧
    (∀ k, k ∈ resourceNames -> firstLargestRequest (p_stepContainers prep) i k ->
          res_requests (c_resources c') !! k = Some (qty (res_requests (c_resources c)) k)) ∧
    (∀ k, k ∈ resourceNames -> ¬ firstLargestRequest (p_stepContainers prep) i k ->
          res_requests (c_resources c') !! k = Some (qty (limitRangesMin lrs) k)) ∧
    (∀ k, k ∉ resourceNames ->
          res_requests (c_resources c') !! k = res_requests (c_resources c) !! k) ∧
    res_limits (c_resources c') = res_limits (c_resources c).
Proof.
  intros HB Hp Hl Hi.
  assert (Hf : getLimitRangeMinimum (listLimitRanges cb) (tr_namespace tr)
               = inr (limitRangesMin lrs)) by (unfold getLimitRangeMinimum; by rewrite Hl).
  destruct (Build_step_lookup cb ctx b rnd tr ts st st' pod prep _ i c HB Hp Hf Hi)
    as (c' & Hc' & Hres & _ & _).
  destruct (resolveResourceRequests_lookup (p_stepContainers prep) (limitRangesMin lrs) i c Hi)
    as (reqs' & Hr & Hmax & Hfloor & Hother).
  rewrite Hr in Hres. simpl in Hres. injection Hres as Hres.
  exists c'. rewrite Hres. simpl. split_and!; auto.
Qed.


(** The premises of [Build_requests_max_or_floor] hold for a lone step of
    50m CPU in a namespace with floors of 100m and 250m. *)
Lemma Build_requests_max_or_floor_witness :
  ∃ st' pod prep c,
    Build (plainCollaborators cpuMinimums) plainFlags (plainBuilder true) "abcde"
      sampleTaskRun sampleTaskSpec emptyHeap = (st', Ok pod) ∧
    prepare (plainCollaborators cpuMinimums) plainFlags (plainBuilder true)
      sampleTaskRun sampleTaskSpec = inr prep ∧
    listLimitRanges (plainCollaborators cpuMinimums) (tr_namespace sampleTaskRun)
      = inr cpuMinimums ∧
    p_stepContainers prep !! 0%nat = Some c ∧
    ∃ c', pod_containers pod !! 0%nat = Some c' ∧
      (∀ k, k ∈ resourceNames -> firstLargestRequest (p_stepContainers prep) 0 k ->
            res_requests (c_resources c') !! k = Some (qty (res_requests (c_resources c)) k)) ∧
      (∀ k, k ∈ resourceNames -> ¬ firstLargestRequest (p_stepContainers prep) 0 k ->
            res_requests (c_resources c') !! k = Some (qty (limitRangesMin cpuMinimums) k)) ∧
      (∀ k, k ∉ resourceNames ->
            res_requests (c_resources c') !! k = res_requests (c_resources c) !! k) ∧
      res_limits (c_resources c') = res_limits (c_resources c).
Proof.
  run_build HB. run_prepare Hp.
  destruct (p_stepContainers prep !! 0%nat) as [c|] eqn:Hc;
    [|rewrite (inr_proj _ _ Hp) in Hc; vm_compute in Hc; discriminate Hc].
  exists st', pod, prep, c.
  split; [reflexivity|]. split; [reflexivity|]. split; [reflexivity|]. split; [exact Hc|].
  exact (Build_requests_max_or_floor _ _ _ _ _ _ _ _ _ _ _ _ _ HB Hp eq_refl Hc).
Defined.

(** Counterexample to C1 as stated: two steps requesting 400m and 500m CPU
    in a namespace with floors of 100m and 250m. The 400m step is not the
    largest, so the pod's first step requests 250m, below the 400m it
    entered with and below max(400m, 250m). *)
Lemma Build_request_lowered :
  ∃ st' pod prep c c',
    Build (plainCollaborators cpuMinimums) plainFlags (plainBuilder true) "abcde"
      sampleTaskRun twoStepTaskSpec emptyHeap = (st', Ok pod) ∧
    prepare (plainCollaborators cpuMinimums) plainFlags (plainBuilder true)
      sampleTaskRun twoStepTaskSpec = inr prep ∧
    p_stepContainers prep !! 0%nat = Some c ∧
    pod_containers pod !! 0%nat = Some c' ∧
    qty (res_requests (c_resources c)) "cpu" = 400%N ∧
    qty (limitRangesMin cpuMinimums) "cpu" = 250%N ∧
    qty (res_requests (c_resources c')) "cpu" = 250%N ∧
    (qty (res_requests (c_resources c')) "cpu" <
     N.max (qty (res_requests (c_resources c)) "cpu") (qty (limitRangesMin cpuMinimums) "cpu"))%N.
Proof.
  run_build HB. run_prepare Hp.
  destruct (p_stepContainers prep !! 0%nat) as [c|] eqn:Hc;
    [|rewrite (inr_proj _ _ Hp) in Hc; vm_compute in Hc; discriminate Hc].
  destruct (pod_containers pod !! 0%nat) as [c'|] eqn:Hc';
    [|rewrite (ok_proj _ _ _ HB) in Hc'; vm_compute in Hc'; discriminate Hc'].
  exists st', pod, prep, c, c'.
  split_and!; try reflexivity; try assumption;
  [ rewrite (inr_proj _ _ Hp) in Hc; vm_compute in Hc; injection Hc as <-; reflexivity
  | rewrite (ok_proj _ _ _ HB) in Hc'; vm_compute in Hc'; injection Hc' as <-; reflexivity
  | rewrite (ok_proj _ _ _ HB) in Hc'; rewrite (inr_proj _ _ Hp) in Hc;
    vm_compute in Hc, Hc'; injection Hc as <-; injection Hc' as <-; vm_compute; reflexivity ].
Qed.

(* ------------------------------------------------------------------ *)
(** ** C5: affinity *)

(** C5: the pod's affinity comes from one source: with a non-empty
    affinity-assistant annotation it is exactly a required pod affinity on
    the assistant's instance and component labels at hostname topology,
    whatever the pod template declares; otherwise it is the pod template's
    affinity as declared. *)
Theorem Build_affinity_single_source cb ctx b rnd tr ts
    (st st' : gmap positive (gmap string string)) pod :
  Build cb ctx b rnd tr ts st = (st', Ok pod) ->
  let name := mapGet (tr_annotations tr) AnnotationAffinityAssistantName st in
  (name ≠ "" ∧
   ∃ labels,
     pod_affinity pod =
       Some (mkAffinity None
               (Some (mkPodAffinity [mkPodAffinityTerm (Some (mkLabelSelector labels))
                                       "kubernetes.io/hostname"]))
               None) ∧
     labels !! LabelInstance = Some name ∧
     labels !! LabelComponent = Some ComponentNameAffinityAssistant ∧
     size labels = 2%nat) ∨
  (name = "" ∧
   pod_affinity pod = pt_affinity (default emptyPodTemplate (tr_podTemplate tr))).
Proof.
  intros HB name.
  destruct (Build_Ok_inv cb ctx b rnd tr ts st st' pod HB)
    as (prep & floor & _ & _ & _ & _ & Haff).
  rewrite Haff. fold name. simpl.
  destruct (String.eqb name "") eqn:E.
  - right. split; [by apply String.eqb_eq|reflexivity].
  - left. split; [intros ->; discriminate E|].
    eexists. split; [reflexivity|]. split; [|split].
    + by rewrite lookup_insert_eq.
    + rewrite lookup_insert_ne by (vm_compute; discriminate). by rewrite lookup_insert_eq.
    + rewrite map_size_insert_None; [by rewrite map_size_insert_None|].
      rewrite lookup_insert_ne by (vm_compute; discriminate). apply lookup_empty.
Qed.

(* ------------------------------------------------------------------ *)
(** ** C6, C10: environment *)

Lemma envValue_app (l1 l2 : list EnvVar) (n : string) :
  envValue (l1 ++ l2) n =
  match envValue l2 n with Some v => Some v | None => envValue l1 n end.
Proof.
  induction l1 as [|e l1 IH]; simpl.
  - by destruct (envValue l2 n).
  - rewrite IH. by destruct (envValue l2 n).
Qed.

Lemma envPrecedes_app (l1 l2 : list EnvVar) x y :
  x ∈ l1 -> y ∈ l2 -> envPrecedes (l1 ++ l2) x y.
Proof.
  intros Hx Hy.
  apply list_elem_of_lookup in Hx as [i Hi]. apply list_elem_of_lookup in Hy as [j Hj].
  exists i, (length l1 + j)%nat. split; [|split].
  - rewrite lookup_app_l; [done|]. by eapply lookup_lt_Some.
  - rewrite lookup_app_r by lia. by replace (length l1 + j - length l1)%nat with j by lia.
  - pose proof (lookup_lt_Some _ _ _ Hi). lia.
Qed.

(** The env of step [i] of a successful [Build]. *)
Lemma Build_step_env cb ctx b rnd tr ts (st st' : gmap positive (gmap string string))
    pod prep i c :
  Build cb ctx b rnd tr ts st = (st', Ok pod) ->
  prepare cb ctx b tr ts = inr prep ->
  p_stepContainers prep !! i = Some c ->
  ∃ c', pod_containers pod !! i = Some c' ∧
    c_env c' = implicitEnvVarsOf b ++ c_env c ++
               (if hermeticRequested ctx tr st then [hermeticVar] else []).
Proof.
  intros HB Hp Hi.
  destruct (Build_Ok_inv cb ctx b rnd tr ts st st' pod HB)
    as (prep' & floor & Hp' & Hf & _).
  rewrite Hp in Hp'. injection Hp' as <-.
  destruct (Build_step_lookup cb ctx b rnd tr ts st st' pod prep floor i c HB Hp Hf Hi)
    as (c' & Hc' & _ & Henv & _).
  eauto.
Qed.

(** C6, as the code has it: with the HOME override on, the injected HOME
    stands before every variable the step declares, so that a HOME the step
    declares, standing later, is the one in effect; in hermetic mode
    TEKTON_HERMETIC=1 stands after every variable the step declares and is
    in effect even over a variable of the same name. *)
Theorem Build_env_precedence cb ctx b rnd tr ts (st st' : gmap positive (gmap string string))
    pod prep i c :
  Build cb ctx b rnd tr ts st = (st', Ok pod) ->
  prepare cb ctx b tr ts = inr prep ->
  p_stepContainers prep !! i = Some c ->
  ∃ c', pod_containers pod !! i = Some c' ∧
    (b_overrideHomeEnv b = true ->
       ∀ e, e ∈ c_env c -> envPrecedes (c_env c') injectedHome e) ∧
    (∀ v, envValue (c_env c) "HOME" = Some v -> envValue (c_env c') "HOME" = Some v) ∧
    (hermeticRequested ctx tr st = true ->
       envValue (c_env c') TektonHermeticEnvVar = Some "1" ∧
       ∀ e, e ∈ c_env c -> envPrecedes (c_env c') e hermeticVar).
Proof.
  intros HB Hp Hi.
  destruct (Build_step_env cb ctx b rnd tr ts st st' pod prep i c HB Hp Hi)
    as (c' & Hc' & Henv).
  exists c'. split; [done|]. rewrite Henv. split; [|split].
  - intros Hh e He. unfold implicitEnvVarsOf. rewrite Hh.
    apply envPrecedes_app; [set_solver|]. set_solver.
  - intros v Hv. rewrite !envValue_app, Hv.
    by destruct (hermeticRequested ctx tr st).
  - intros Hh. rewrite Hh. split.
    + rewrite !envValue_app. reflexivity.
    + intros e He. rewrite app_assoc. apply envPrecedes_app; set_solver.
Qed.

(** C10: the hermetic variable is appended to every step exactly when the
    execution-mode annotation is "hermetic" and the alpha API fields are
    enabled; otherwise the env of each step is the implicit variables
    followed by its own, untouched by the hermetic layer. *)
Theorem Build_hermetic_only_when_requested cb ctx b rnd tr ts
    (st st' : gmap positive (gmap string string)) pod prep i c :
  Build cb ctx b rnd tr ts st = (st', Ok pod) ->
  prepare cb ctx b tr ts = inr prep ->
  p_stepContainers prep !! i = Some c ->
  ∃ c', pod_containers pod !! i = Some c' ∧
    (mapGet (tr_annotations tr) ExecutionModeAnnotation st = ExecutionModeHermetic ∧
     enableAPIFields ctx = AlphaAPIFields ->
       c_env c' = implicitEnvVarsOf b ++ c_env c ++ [hermeticVar]) ∧
    (¬ (mapGet (tr_annotations tr) ExecutionModeAnnotation st = ExecutionModeHermetic ∧
        enableAPIFields ctx = AlphaAPIFields) ->
       c_env c' = implicitEnvVarsOf b ++ c_env c).
Proof.
  intros HB Hp Hi.
  destruct (Build_step_env cb ctx b rnd tr ts st st' pod prep i c HB Hp Hi)
    as (c' & Hc' & Henv).
  exists c'. split; [done|]. rewrite Henv. unfold hermeticRequested. split.
  - intros [H1 H2]. rewrite H1, H2, !String.eqb_refl. reflexivity.
  - intros Hn.
    destruct (String.eqb (mapGet _ _ st) ExecutionModeHermetic) eqn:E1;
    destruct (String.eqb (enableAPIFields ctx) AlphaAPIFields) eqn:E2; simpl;
      try by rewrite app_nil_r.
    apply String.eqb_eq in E1, E2. tauto.
Qed.

(* ------------------------------------------------------------------ *)
(** ** Witnesses and counterexamples for [Build] *)

(** The premise of [Build_affinity_single_source] holds for a TaskRun of
    the affinity assistant [affinity-assistant-1]. *)
Lemma Build_affinity_single_source_witness :
  ∃ st' pod,
    Build (plainCollaborators []) plainFlags (plainBuilder true) "abcde"
      sampleTaskRun sampleTaskSpec affinityHeap = (st', Ok pod) ∧
    let name := mapGet (tr_annotations sampleTaskRun) AnnotationAffinityAssistantName
                  affinityHeap in
    (name ≠ "" ∧
     ∃ labels,
       pod_affinity pod =
         Some (mkAffinity None
                 (Some (mkPodAffinity [mkPodAffinityTerm (Some (mkLabelSelector labels))
                                         "kubernetes.io/hostname"]))
                 None) ∧
       labels !! LabelInstance = Some name ∧
       labels !! LabelComponent = Some ComponentNameAffinityAssistant ∧
       size labels = 2%nat) ∨
    (name = "" ∧
     pod_affinity pod = pt_affinity (default emptyPodTemplate (tr_podTemplate sampleTaskRun))).
Proof.
  run_build HB. exists st', pod. split; [reflexivity|].
  exact (Build_affinity_single_source _ _ _ _ _ _ _ _ _ HB).
Defined.

(** The premises of [Build_env_precedence] hold for the step [a] of
    [sampleTaskSpec] in hermetic mode with the alpha fields on. *)
Lemma Build_env_precedence_witness :
  ∃ st' pod prep c,
    Build (plainCollaborators []) alphaFlags (plainBuilder true) "abcde"
      sampleTaskRun sampleTaskSpec hermeticHeap = (st', Ok pod) ∧
    prepare (plainCollaborators []) alphaFlags (plainBuilder true)
      sampleTaskRun sampleTaskSpec = inr prep ∧
    p_stepContainers prep !! 0%nat = Some c ∧
    ∃ c', pod_containers pod !! 0%nat = Some c' ∧
      (b_overrideHomeEnv (plainBuilder true) = true ->
         ∀ e, e ∈ c_env c -> envPrecedes (c_env c') injectedHome e) ∧
      (∀ v, envValue (c_env c) "HOME" = Some v -> envValue (c_env c') "HOME" = Some v) ∧
      (hermeticRequested alphaFlags sampleTaskRun hermeticHeap = true ->
         envValue (c_env c') TektonHermeticEnvVar = Some "1" ∧
         ∀ e, e ∈ c_env c -> envPrecedes (c_env c') e hermeticVar).
Proof.
  run_build HB. run_prepare Hp.
  destruct (p_stepContainers prep !! 0%nat) as [c|] eqn:Hc;
    [|rewrite (inr_proj _ _ Hp) in Hc; vm_compute in Hc; discriminate Hc].
  exists st', pod, prep, c. split; [reflexivity|]. split; [reflexivity|]. split; [exact Hc|].
  exact (Build_env_precedence _ _ _ _ _ _ _ _ _ _ _ _ HB Hp Hc).
Defined.

(** The premises of [Build_hermetic_only_when_requested] hold for the step
    [a] of [sampleTaskSpec] with the hermetic annotation but without the
    alpha fields. *)
Lemma Build_hermetic_only_when_requested_witness :
  ∃ st' pod prep c,
    Build (plainCollaborators []) plainFlags (plainBuilder true) "abcde"
      sampleTaskRun sampleTaskSpec hermeticHeap = (st', Ok pod) ∧
    prepare (plainCollaborators []) plainFlags (plainBuilder true)
      sampleTaskRun sampleTaskSpec = inr prep ∧
    p_stepContainers prep !! 0%nat = Some c ∧
    ∃ c', pod_containers pod !! 0%nat = Some c' ∧
      (mapGet (tr_annotations sampleTaskRun) ExecutionModeAnnotation hermeticHeap
         = ExecutionModeHermetic ∧
       enableAPIFields plainFlags = AlphaAPIFields ->
         c_env c' = implicitEnvVarsOf (plainBuilder true) ++ c_env c ++ [hermeticVar]) ∧
      (¬ (mapGet (tr_annotations sampleTaskRun) ExecutionModeAnnotation hermeticHeap
            = ExecutionModeHermetic ∧
          enableAPIFields plainFlags = AlphaAPIFields) ->
         c_env c' = implicitEnvVarsOf (plainBuilder true) ++ c_env c).
Proof.
  run_build HB. run_prepare Hp.
  destruct (p_stepContainers prep !! 0%nat) as [c|] eqn:Hc;
    [|rewrite (inr_proj _ _ Hp) in Hc; vm_compute in Hc; discriminate Hc].
  exists st', pod, prep, c. split; [reflexivity|]. split; [reflexivity|]. split; [exact Hc|].
  exact (Build_hermetic_only_when_requested _ _ _ _ _ _ _ _ _ _ _ _ HB Hp Hc).
Defined.

(** C6 counterexample: the step declares HOME=/home/user; with the HOME
    override on, its final env is the injected HOME, then the declared one,
    then TEKTON_HERMETIC: the declared HOME does not stand before the
    injected one (it follows it, and it is by following that it wins). *)
Lemma Build_user_HOME_follows_injected :
  ∃ st' pod c,
    Build (plainCollaborators []) alphaFlags (plainBuilder true) "abcde"
      sampleTaskRun sampleTaskSpec hermeticHeap = (st', Ok pod) ∧
    pod_containers pod !! 0%nat = Some c ∧
    c_env c = [injectedHome; userHome; hermeticVar] ∧
    ¬ envPrecedes (c_env c) userHome injectedHome.
Proof.
  run_build HB.
  destruct (pod_containers pod !! 0%nat) as [c|] eqn:Hc;
    [|rewrite (ok_proj _ _ _ HB) in Hc; vm_compute in Hc; discriminate Hc].
  assert (Henv : c_env c = [injectedHome; userHome; hermeticVar]).
  { rewrite (ok_proj _ _ _ HB) in Hc. vm_compute in Hc. injection Hc as <-.
    reflexivity. }
  exists st', pod, c. split; [reflexivity|]. split; [exact Hc|]. split; [exact Henv|].
  rewrite Henv. intros (i & j & Hi & Hj & Hlt).
  destruct i as [|[|[|i]]]; simpl in Hi; try discriminate Hi;
  destruct j as [|[|[|j]]]; simpl in Hj; try discriminate Hj; lia.
Qed.

(** C7 counterexample: the sidecar [sc] of [sampleTaskSpec] declares no
    mount and ends up in the pod with none: the workspace mount is not
    added to it. *)
Lemma Build_sidecar_lacks_implicit_mounts :
  ∃ st' pod sc,
    Build (plainCollaborators []) plainFlags (plainBuilder true) "abcde"
      sampleTaskRun sampleTaskSpec emptyHeap = (st', Ok pod) ∧
    pod_containers pod !! 1%nat = Some sc ∧
    c_name sc = "sidecar-sc" ∧
    c_volumeMounts sc = [] ∧
    mkVolumeMount "tekton-internal-workspace" WorkspaceDir ∉ c_volumeMounts sc.
Proof.
  run_build HB.
  destruct (pod_containers pod !! 1%nat) as [sc|] eqn:Hc;
    [|rewrite (ok_proj _ _ _ HB) in Hc; vm_compute in Hc; discriminate Hc].
  assert (Hsc : c_name sc = "sidecar-sc" ∧ c_volumeMounts sc = []).
  { rewrite (ok_proj _ _ _ HB) in Hc. vm_compute in Hc. injection Hc as <-.
    split; reflexivity. }
  destruct Hsc as [Hn Hv].
  exists st', pod, sc. split; [reflexivity|]. split; [exact Hc|].
  split; [exact Hn|]. split; [exact Hv|]. rewrite Hv. apply not_elem_of_nil.
Qed.

(** C8 counterexample: two calls of [Build] on the same inputs, heap and
    collaborators, differing only in the random draw of the name generator,
    return different pods; and [Build] writes the release annotation into
    the TaskRun's own annotation map. *)
Lemma Build_name_random_and_taskrun_mutated :
  let r1 := Build (plainCollaborators []) plainFlags (plainBuilder true) "aaaaa"
              sampleTaskRun sampleTaskSpec emptyHeap in
  let r2 := Build (plainCollaborators []) plainFlags (plainBuilder true) "bbbbb"
              sampleTaskRun sampleTaskSpec emptyHeap in
  r1 ≠ r2 ∧
  (fst r1 !! 1%positive ≫= fun m => m !! ReleaseAnnotation) = Some "v0.27.0" ∧
  (emptyHeap !! 1%positive ≫= fun m => m !! ReleaseAnnotation) = None.
Proof.
  intros r1 r2. split; [|split; vm_compute; reflexivity].
  intros H.
  apply (f_equal (fun r : gmap positive (gmap string string) * outcome Pod =>
                    match snd r with Ok p => pod_name p | _ => "" end)) in H.
  vm_compute in H. discriminate H.
Qed.

(* ------------------------------------------------------------------ *)
(** ** C7: implicit volume mounts *)

Lemma finishSteps_creds cb ctx b hermetic vms floor (cs : list Container) i v vm :
  (i < length cs)%nat -> getCredsInitVolume cb i = Some (v, vm) ->
  v ∈ fst (finishSteps cb ctx b hermetic vms floor cs).
Proof.
  intros Hi Hv. unfold finishSteps.
  destruct (addImplicitVolumeMounts _ _ _ _) as [vs cs4] eqn:E4. simpl.
  change vs with (fst (vs, cs4)). rewrite <- E4.
  apply (addImplicitVolumeMounts_creds cb vms 0 _ i v vm); [|exact Hv].
  unfold addHermeticEnvVar, addImplicitEnvVars.
  destruct hermetic, (0 <? length (implicitEnvVarsOf b))%nat; simpl;
  rewrite ?length_map, resolveResourceRequests_length; exact Hi.
Qed.

Lemma stepVolumeMounts_elem vms own vm :
  vm ∈ stepVolumeMounts vms own ↔
  vm ∈ own ∨
  (vm ∈ vms ∧ filepath_Clean (vm_mountPath vm) ∉
                map (fun m => filepath_Clean (vm_mountPath m)) own).
Proof.
  unfold stepVolumeMounts. rewrite elem_of_app, list_elem_of_filter, elem_of_list_to_set.
  tauto.
Qed.

(** C7 (amended): step [i] of the pod keeps its own mounts (those it
    declares, and the credentials-staging mount the credentials
    initialiser hands to index [i], if any); it holds an implicit mount
    (workspace, home, results, step metadata) exactly when it already holds
    that mount or none of its own mounts has the same cleaned path; the
    credentials-staging volume of index [i] is a volume of the pod.
    Sidecars receive no mount: each is only renamed. *)
Theorem Build_implicit_mounts cb ctx b rnd tr ts
    (st st' : gmap positive (gmap string string)) pod prep i c :
  Build cb ctx b rnd tr ts st = (st', Ok pod) ->
  prepare cb ctx b tr ts = inr prep ->
  p_stepContainers prep !! i = Some c ->
  ∃ c', pod_containers pod !! i = Some c' ∧
    (∀ vm, vm ∈ ownMounts cb i c -> vm ∈ c_volumeMounts c') ∧
    (∀ imp, imp ∈ implicitVolumeMounts ->
       (imp ∈ c_volumeMounts c' ↔
        imp ∈ ownMounts cb i c ∨
        filepath_Clean (vm_mountPath imp) ∉
          map (fun m => filepath_Clean (vm_mountPath m)) (ownMounts cb i c))) ∧
    (∀ v vm, getCredsInitVolume cb i = Some (v, vm) ->
       vm ∈ c_volumeMounts c' ∧ v ∈ pod_volumes pod) ∧
    (∀ j sc, p_sidecarContainers prep !! j = Some sc ->
       pod_containers pod !! (length (p_stepContainers prep) + j)%nat =
       Some (set_name sc (restrictLength cb (sidecarPrefix ++ c_name sc)%string))).
Proof.
  intros HB Hp Hi.
  destruct (Build_Ok_inv cb ctx b rnd tr ts st st' pod HB)
    as (prep' & floor & Hp' & Hf & _ & Hvol & _).
  rewrite Hp in Hp'. injection Hp' as <-.
  destruct (Build_step_lookup cb ctx b rnd tr ts st st' pod prep floor i c HB Hp Hf Hi)
    as (c' & Hc' & _ & _ & Hvm).
  destruct (prepare_volumeMounts cb ctx b tr ts prep Hp) as [cred Hcred].
  exists c'. split; [exact Hc'|]. rewrite Hvm. split; [|split; [|split]].
  - intros vm Hvm'. apply stepVolumeMounts_elem. by left.
  - intros imp Himp. rewrite stepVolumeMounts_elem, Hcred, elem_of_app.
    split; [intros [H|[_ H]]; auto|intros [H|H]; auto].
  - intros v vm Hv. split.
    + apply stepVolumeMounts_elem. left. unfold ownMounts. rewrite Hv.
      apply elem_of_app. right. by apply list_elem_of_singleton.
    + rewrite Hvol. apply elem_of_app. right. apply elem_of_app. left.
      eapply finishSteps_creds; [|exact Hv]. by eapply lookup_lt_Some.
  - intros j sc Hj. exact (Build_sidecar_lookup cb ctx b rnd tr ts st st' pod prep j sc HB Hp Hj).
Qed.

(** The premises of [Build_implicit_mounts] hold for the step [a] of
    [sampleTaskSpec], whose own mount at "/workspace/" shadows the
    implicit workspace mount. *)
Lemma Build_implicit_mounts_witness :
  ∃ st' pod prep c,
    Build (plainCollaborators []) plainFlags (plainBuilder true) "abcde"
      sampleTaskRun sampleTaskSpec emptyHeap = (st', Ok pod) ∧
    prepare (plainCollaborators []) plainFlags (plainBuilder true)
      sampleTaskRun sampleTaskSpec = inr prep ∧
    p_stepContainers prep !! 0%nat = Some c ∧
    ∃ c', pod_containers pod !! 0%nat = Some c' ∧
      (∀ vm, vm ∈ ownMounts (plainCollaborators []) 0 c -> vm ∈ c_volumeMounts c') ∧
      (∀ imp, imp ∈ implicitVolumeMounts ->
         (imp ∈ c_volumeMounts c' ↔
          imp ∈ ownMounts (plainCollaborators []) 0 c ∨
          filepath_Clean (vm_mountPath imp) ∉
            map (fun m => filepath_Clean (vm_mountPath m))
              (ownMounts (plainCollaborators []) 0 c))) ∧
      (∀ v vm, getCredsInitVolume (plainCollaborators []) 0 = Some (v, vm) ->
         vm ∈ c_volumeMounts c' ∧ v ∈ pod_volumes pod) ∧
      (∀ j sc, p_sidecarContainers prep !! j = Some sc ->
         pod_containers pod !! (length (p_stepContainers prep) + j)%nat =
         Some (set_name sc (restrictLength (plainCollaborators [])
                              (sidecarPrefix ++ c_name sc)%string))).
Proof.
  run_build HB. run_prepare Hp.
  destruct (p_stepContainers prep !! 0%nat) as [c|] eqn:Hc;
    [|rewrite (inr_proj _ _ Hp) in Hc; vm_compute in Hc; discriminate Hc].
  exists st', pod, prep, c. split; [reflexivity|]. split; [reflexivity|]. split; [exact Hc|].
  exact (Build_implicit_mounts _ _ _ _ _ _ _ _ _ _ _ _ HB Hp Hc).
Defined.

(* ------------------------------------------------------------------ *)
(** ** C8: what depends on the random draw *)

(** C8 (amended): [Build] is a function of its inputs, the heap and the
    collaborators; two calls differing only in the random draw of the name
    generator leave the same heap and return the same outcome up to the
    pod's name. *)
Theorem Build_deterministic_up_to_name cb ctx b rnd1 rnd2 tr ts
    (st : gmap positive (gmap string string)) :
  fst (Build cb ctx b rnd1 tr ts st) = fst (Build cb ctx b rnd2 tr ts st) ∧
  outcome_map unnamed (snd (Build cb ctx b rnd1 tr ts st)) =
  outcome_map unnamed (snd (Build cb ctx b rnd2 tr ts st)).
Proof.
  unfold Build, mbind, M_bind, mret, M_ret, lift, readMap, writeMap.
  repeat case_match; simpl; split; reflexivity.
Qed.

(* ------------------------------------------------------------------ *)
(** ** C2: onError continue *)

(** C2: a step under policy Continue whose command exits with a non-zero
    code, once its wait condition holds, ends with reason ErroredIgnored and
    the real code in its outcome, writes its completion marker so the next
    step's wait condition holds, and exits 0 towards the platform. *)
Theorem wrapper_continue_ignores_error (i : nat) declared (code : Z) markers :
  code ≠ 0%Z -> waitCondition markers i = true ->
  ∃ r, runWrapper i Continue declared (Exited code) markers = Some r ∧
    so_reason (run_outcome r) = ErroredIgnored ∧
    so_exitCode (run_outcome r) = code ∧
    waitCondition (run_markers r) (S i) = true ∧
    run_platformExit r = 0%Z.
Proof.
  intros Hcode Hwait. unfold runWrapper. rewrite Hwait. simpl.
  apply Z.eqb_neq in Hcode. rewrite Hcode.
  eexists; split; [reflexivity|]. simpl.
  split; [reflexivity|]. split; [reflexivity|]. split; [|reflexivity].
  apply bool_decide_eq_true. set_solver.
Qed.

(** The first step [exit-with-1] of [task1] in the fixture
    [pipelinerun-with-failing-step-]: policy continue, exit 1, no marker
    yet. *)
Lemma wrapper_continue_ignores_error_witness :
  (1 ≠ 0)%Z ∧ waitCondition ∅ 0 = true ∧
  ∃ r, runWrapper 0 Continue [("task1-result", None)] (Exited 1) ∅ = Some r ∧
    so_reason (run_outcome r) = ErroredIgnored ∧
    so_exitCode (run_outcome r) = 1%Z ∧
    waitCondition (run_markers r) 1 = true ∧
    run_platformExit r = 0%Z.
Proof.
  split; [lia|]. split; [reflexivity|].
  apply (wrapper_continue_ignores_error 0 [("task1-result", None)] 1 ∅); [lia|reflexivity].
Defined.

(* ------------------------------------------------------------------ *)
(** ** C4: no reference *)

(** C4 (amended): when the pattern finds no reference in [value],
    [validateString] returns the nil slice, which has no element. *)
Theorem validateString_no_reference_nil (value : string) :
  FindAllString value = NilSlice ->
  validateString value = NilSlice ∧ slice_to_list (validateString value) = [].
Proof.
  intros H. unfold validateString. rewrite H. split; reflexivity.
Qed.

Lemma validateString_no_reference_nil_witness :
  FindAllString "echo hello" = NilSlice ∧
  validateString "echo hello" = NilSlice ∧
  slice_to_list (validateString "echo hello") = [].
Proof.
  split; [vm_compute; reflexivity|].
  apply validateString_no_reference_nil. vm_compute. reflexivity.
Defined.

(** C4 counterexample: "echo hello" holds no reference, and
    [validateString] returns the nil slice, not an empty non-nil one. *)
Lemma validateString_echo_is_nil :
  validateString "echo hello" = NilSlice ∧ validateString "echo hello" ≠ MkSlice [].
Proof.
  split; vm_compute; [reflexivity|discriminate].
Qed.

(* ------------------------------------------------------------------ *)
(** ** C9: oversize termination message *)

(** C9: an outcome whose encoding is longer than 4096 characters is not
    encoded: [Encode] fails with [errTooLong], a [MessageLengthError], whose
    text is none of the step reasons; no payload is returned. *)
Theorem Encode_too_long_fails (o : StepOutcome) :
  (MaxContainerTerminationMessageLength < String.length (encodeOutcome o))%nat ->
  Encode o = EncodeFailed errTooLong ∧
  (∀ p, Encode o ≠ Encoded p) ∧
  (∀ r, MessageLengthError_Error errTooLong ≠ reason_string r).
Proof.
  intros H. unfold Encode.
  assert (Hle : (String.length (encodeOutcome o) <=? MaxContainerTerminationMessageLength)%nat
                = false) by (apply Nat.leb_gt; exact H).
  rewrite Hle. split; [reflexivity|]. split; [intros p; discriminate|].
  intros []; vm_compute; discriminate.
Qed.

(** An ignored error carrying a 5000-character result. *)
Lemma Encode_too_long_fails_witness :
  let o := mkStepOutcome 1 ErroredIgnored
             [mkTaskResult "task1-result" (string_of_list_ascii (repeat "x"%char 5000))] "" in
  (MaxContainerTerminationMessageLength < String.length (encodeOutcome o))%nat ∧
  Encode o = EncodeFailed errTooLong ∧
  (∀ p, Encode o ≠ Encoded p) ∧
  (∀ r, MessageLengthError_Error errTooLong ≠ reason_string r).
Proof.
  intros o.
  assert (H : (MaxContainerTerminationMessageLength < String.length (encodeOutcome o))%nat)
    by (vm_compute; lia).
  split; [exact H|]. exact (Encode_too_long_fails o H).
Defined.

(* ================================================================== *)
(** * Further properties of the code *)

(* ------------------------------------------------------------------ *)
(** ** What a successful [Build] writes *)

Lemma Build_Ok_full cb ctx b rnd tr ts (st st' : gmap positive (gmap string string)) pod :
  Build cb ctx b rnd tr ts st = (st', Ok pod) ->
  ∃ prep floor version l,
    prepare cb ctx b tr ts = inr prep ∧
    getLimitRangeMinimum (listLimitRanges cb) (tr_namespace tr) = inr floor ∧
    changesetGet cb = inr version ∧
    tr_annotations tr = Some l ∧
    validateVolumes cb (pod_volumes pod) = None ∧
    pod_annotations pod = Some l ∧
    pod_labels pod = makeLabels tr ∧
    pod_initContainers pod = p_initContainers prep ∧
    st' = (let st1 := <[l := <[ReleaseAnnotation := version]> (default ∅ (st !! l))]> st in
           if shouldAddReadyAnnotationOnPodCreate ctx (ts_sidecars ts)
           then <[l := <[readyAnnotation := readyAnnotationValue]> (default ∅ (st1 !! l))]> st1
           else st1).
Proof.
  unfold Build, mbind, M_bind, mret, M_ret, lift, readMap.
  destruct (prepare cb ctx b tr ts) as [e|prep] eqn:Hp; [intros H; discriminate H|].
  destruct (getLimitRangeMinimum _ _) as [e|floor] eqn:Hf; [intros H; discriminate H|].
  destruct (finishSteps _ _ _ _ _ _ _) as [cv scs] eqn:Hfs.
  destruct (validateVolumes cb _) eqn:Hv; [intros H; discriminate H|].
  destruct (changesetGet cb) as [e|version] eqn:Hc; [intros H; discriminate H|].
  unfold writeMap. destruct (tr_annotations tr) as [l|] eqn:Ha; [|intros H; discriminate H].
  destruct (shouldAddReadyAnnotationOnPodCreate ctx (ts_sidecars ts));
  intros H; injection H as <- <-; exists prep, floor, version, l; simpl;
  repeat split; auto.
Qed.

Lemma mapGet_insert_eq (l : positive) k v (m : gmap string string)
    (st : gmap positive (gmap string string)) :
  mapGet (Some l) k (<[l := <[k := v]> m]> st) = v.
Proof. unfold mapGet. rewrite lookup_insert_eq. simpl. by rewrite lookup_insert_eq. Qed.

Lemma mapGet_insert_ne (l : positive) k k' v (st : gmap positive (gmap string string)) :
  k' ≠ k ->
  mapGet (Some l) k (<[l := <[k' := v]> (default ∅ (st !! l))]> st) = mapGet (Some l) k st.
Proof.
  intros Hk. unfold mapGet. rewrite lookup_insert_eq. simpl.
  rewrite lookup_insert_ne by done. by destruct (st !! l).
Qed.

Lemma ReleaseAnnotation_ne_ready : ReleaseAnnotation ≠ readyAnnotation.
Proof. discriminate. Qed.

(** X1: the pod's labels are the TaskRun's, with [tekton.dev/taskRun] set
    to the TaskRun's name over any value the TaskRun gave it. *)
Theorem Build_labels cb ctx b rnd tr ts (st st' : gmap positive (gmap string string)) pod :
  Build cb ctx b rnd tr ts st = (st', Ok pod) ->
  pod_labels pod !! TaskRunLabelKey = Some (tr_name tr) ∧
  ∀ k, k ≠ TaskRunLabelKey -> pod_labels pod !! k = tr_labels tr !! k.
Proof.
  intros HB.
  destruct (Build_Ok_full _ _ _ _ _ _ _ _ _ HB)
    as (prep & floor & version & l & _ & _ & _ & _ & _ & _ & Hl & _).
  rewrite Hl. unfold makeLabels. split.
  - by rewrite lookup_insert_eq.
  - intros k Hk. by rewrite lookup_insert_ne by congruence.
Qed.

(** X2: the pod's annotations are the TaskRun's own annotation map (the same
    map, not a copy); a successful [Build] writes the release version into
    it and changes no other key of it except the ready annotation. *)
Theorem Build_release_annotation cb ctx b rnd tr ts
    (st st' : gmap positive (gmap string string)) pod :
  Build cb ctx b rnd tr ts st = (st', Ok pod) ->
  ∃ l version,
    tr_annotations tr = Some l ∧ pod_annotations pod = Some l ∧
    changesetGet cb = inr version ∧
    mapGet (Some l) ReleaseAnnotation st' = version ∧
    (∀ k, k ≠ ReleaseAnnotation -> k ≠ readyAnnotation ->
          mapGet (Some l) k st' = mapGet (Some l) k st).
Proof.
  intros HB.
  destruct (Build_Ok_full _ _ _ _ _ _ _ _ _ HB)
    as (prep & floor & version & l & _ & _ & Hc & Ha & _ & Hpa & _ & _ & Hst).
  exists l, version. split; [done|]. split; [done|]. split; [done|].
  subst st'. simpl. pose proof ReleaseAnnotation_ne_ready.
  destruct (shouldAddReadyAnnotationOnPodCreate ctx (ts_sidecars ts)); split_and!;
    try (intros; unfold mapGet; simpl_map by congruence; simpl; simpl_map by congruence;
         by destruct (st !! l)).
Qed.

(** X3: a successful [Build] sets the ready annotation of the TaskRun's map
    to [READY] when the task has no sidecar and sidecars are not injected
    in the cluster, and leaves that key as it was otherwise. *)
Theorem Build_ready_annotation cb ctx b rnd tr ts
    (st st' : gmap positive (gmap string string)) pod :
  Build cb ctx b rnd tr ts st = (st', Ok pod) ->
  (ts_sidecars ts = [] -> runningInEnvWithInjectedSidecars ctx = false ->
     mapGet (tr_annotations tr) readyAnnotation st' = readyAnnotationValue) ∧
  (ts_sidecars ts ≠ [] ∨ runningInEnvWithInjectedSidecars ctx = true ->
     mapGet (tr_annotations tr) readyAnnotation st' =
     mapGet (tr_annotations tr) readyAnnotation st).
Proof.
  intros HB.
  destruct (Build_Ok_full _ _ _ _ _ _ _ _ _ HB)
    as (prep & floor & version & l & _ & _ & Hc & Ha & _ & _ & _ & _ & Hst).
  rewrite Ha. subst st'. simpl. unfold shouldAddReadyAnnotationOnPodCreate.
  pose proof ReleaseAnnotation_ne_ready. split.
  - intros -> ->. simpl. unfold mapGet. simpl_map by congruence. simpl.
    simpl_map by congruence. reflexivity.
  - intros Hs. assert (Hno : match ts_sidecars ts with
                             | [] => negb (runningInEnvWithInjectedSidecars ctx)
                             | _ :: _ => false end = false).
    { destruct Hs as [Hs|Hs]; destruct (ts_sidecars ts); try done; by rewrite Hs. }
    rewrite Hno. unfold mapGet. simpl_map by congruence. simpl. simpl_map by congruence.
    by destruct (st !! l).
Qed.

(* ------------------------------------------------------------------ *)
(** ** What a failing [Build] does *)

(** X4: when the LimitRange listing of the TaskRun's namespace fails,
    [Build] returns that error, without writing to any map. *)
Theorem Build_listing_error cb ctx b rnd tr ts (st : gmap positive (gmap string string))
    prep e :
  prepare cb ctx b tr ts = inr prep ->
  listLimitRanges cb (tr_namespace tr) = inl e ->
  Build cb ctx b rnd tr ts st = (st, Err e).
Proof.
  intros Hp Hl. unfold Build, mbind, M_bind, lift. rewrite Hp.
  unfold getLimitRangeMinimum. rewrite Hl. reflexivity.
Qed.

(** X5: [Build] never fails half-way through its annotation writes: whenever
    it does not return a pod (an error or a panic), every annotation map is
    as it was. The heap holds the annotation maps only; the step request
    maps the resource pass of line 185 writes are outside this statement. *)
Theorem Build_failure_keeps_annotations cb ctx b rnd tr ts
    (st st' : gmap positive (gmap string string)) (o : outcome Pod) :
  Build cb ctx b rnd tr ts st = (st', o) ->
  (∀ pod, o ≠ Ok pod) ->
  st' = st.
Proof.
  unfold Build, mbind, M_bind, mret, M_ret, lift, readMap, writeMap.
  repeat case_match; intros HB0 Hno0; simplify_eq/=;
    first [reflexivity | exfalso; by eapply Hno0].
Qed.

(** X6: with a nil annotation map on the TaskRun, [Build] never returns a
    pod: it fails with an error of an earlier stage, or panics when it
    writes the release annotation. *)
Theorem Build_nil_annotations_never_ok cb ctx b rnd tr ts
    (st : gmap positive (gmap string string)) :
  tr_annotations tr = None ->
  (∃ e, snd (Build cb ctx b rnd tr ts st) = Err e) ∨
  snd (Build cb ctx b rnd tr ts st) = Panic "assignment to entry in nil map".
Proof.
  intros Ha. unfold Build, mbind, M_bind, mret, M_ret, lift, readMap, writeMap.
  rewrite Ha.
  destruct (prepare cb ctx b tr ts) as [e|prep]; [left; by exists e|].
  destruct (getLimitRangeMinimum _ _) as [e|floor]; [left; by exists e|].
  destruct (finishSteps _ _ _ _ _ _ _) as [cv scs].
  destruct (validateVolumes cb _) as [e|]; [left; by exists e|].
  destruct (changesetGet cb) as [e|version]; [left; by exists e|].
  right. reflexivity.
Qed.

(* ------------------------------------------------------------------ *)
(** ** Step containers: names, working directories, images *)

Lemma finishSteps_lookup_meta cb ctx b hermetic vms floor (cs : list Container) i c :
  cs !! i = Some c ->
  ∃ c', snd (finishSteps cb ctx b hermetic vms floor cs) !! i = Some c' ∧
    c_name c' = restrictLength cb (stepName cb (c_name c) i) ∧
    c_workingDir c' =
      (if String.eqb (c_workingDir c) "" && shouldOverrideWorkingDir ctx
       then WorkspaceDir else c_workingDir c) ∧
    c_image c' = c_image c ∧
    c_command c' = c_command c.
Proof.
  intros Hi. unfold finishSteps.
  destruct (resolveResourceRequests_lookup cs floor i c Hi) as (reqs' & Hr & _).
  set (cs1 := resolveResourceRequests cs floor) in *.
  set (cs2 := addImplicitEnvVars (implicitEnvVarsOf b) cs1).
  set (cs3 := addHermeticEnvVar hermetic cs2).
  assert (H3 : cs3 !! i = Some (set_env (set_env (set_requests c reqs')
                 (implicitEnvVarsOf b ++ c_env c))
                 (implicitEnvVarsOf b ++ c_env c ++ (if hermetic then [hermeticVar] else [])))).
  { subst cs3 cs2. rewrite addHermeticEnvVar_lookup, addImplicitEnvVars_lookup, Hr. simpl.
    by rewrite app_assoc. }
  destruct (addImplicitVolumeMounts cb vms 0 cs3) as [vs cs4] eqn:E4. simpl.
  pose proof (addImplicitVolumeMounts_lookup cb vms 0 cs3 i _ H3) as H4.
  rewrite E4 in H4. simpl in H4.
  unfold defaultWorkingDirAndName. rewrite list_lookup_imap, H4. simpl.
  eexists; split; [reflexivity|].
  destruct (String.eqb (c_workingDir c) "" && shouldOverrideWorkingDir ctx); simpl;
    split_and!; reflexivity.
Qed.

(** X7: step [i] of the pod is named by [StepName] and the length
    restriction from its name and index; an empty working directory becomes
    /workspace unless the feature flag disables it, a set one is kept; its
    image and command are those the entrypoint passes produced. *)
Theorem Build_step_name_workingDir cb ctx b rnd tr ts
    (st st' : gmap positive (gmap string string)) pod prep i c :
  Build cb ctx b rnd tr ts st = (st', Ok pod) ->
  prepare cb ctx b tr ts = inr prep ->
  p_stepContainers prep !! i = Some c ->
  ∃ c', pod_containers pod !! i = Some c' ∧
    c_name c' = restrictLength cb (stepName cb (c_name c) i) ∧
    (c_workingDir c = "" -> disableWorkingDirOverwrite ctx = false ->
       c_workingDir c' = WorkspaceDir) ∧
    (c_workingDir c ≠ "" ∨ disableWorkingDirOverwrite ctx = true ->
       c_workingDir c' = c_workingDir c) ∧
    c_image c' = c_image c ∧
    c_command c' = c_command c.
Proof.
  intros HB Hp Hi.
  destruct (Build_Ok_inv cb ctx b rnd tr ts st st' pod HB)
    as (prep' & floor & Hp' & _ & Hc & _).
  rewrite Hp in Hp'. injection Hp' as <-.
  destruct (finishSteps_lookup_meta cb ctx b (hermeticRequested ctx tr st)
              (p_volumeMounts prep) floor (p_stepContainers prep) i c Hi)
    as (c' & Hc' & Hn & Hwd & Him & Hcmd).
  exists c'. split.
  { rewrite Hc. unfold mergeSidecars. rewrite lookup_app_l; [auto|].
    rewrite finishSteps_length. by eapply lookup_lt_Some. }
  split; [exact Hn|]. split; [|split; [|split; [exact Him|exact Hcmd]]].
  - intros Hw Hd. rewrite Hwd, Hw. unfold shouldOverrideWorkingDir. rewrite Hd.
    reflexivity.
  - intros [Hw|Hd]; rewrite Hwd; unfold shouldOverrideWorkingDir.
    + apply String.eqb_neq in Hw. rewrite Hw. reflexivity.
    + rewrite Hd, andb_false_r. reflexivity.
Qed.

(** X8: the pod has one container per step and one per sidecar, steps
    first: none is dropped or added. *)
Theorem Build_container_count cb ctx b rnd tr ts
    (st st' : gmap positive (gmap string string)) pod prep :
  Build cb ctx b rnd tr ts st = (st', Ok pod) ->
  prepare cb ctx b tr ts = inr prep ->
  length (pod_containers pod) =
  (length (p_stepContainers prep) + length (p_sidecarContainers prep))%nat.
Proof.
  intros HB Hp.
  destruct (Build_Ok_inv cb ctx b rnd tr ts st st' pod HB)
    as (prep' & floor & Hp' & _ & Hc & _).
  rewrite Hp in Hp'. injection Hp' as <-.
  rewrite Hc. unfold mergeSidecars. by rewrite length_app, finishSteps_length, length_map.
Qed.

Lemma prepare_volumes cb ctx b tr ts prep :
  prepare cb ctx b tr ts = inr prep ->
  ∃ mid, p_volumes prep = implicitVolumes ++ mid ++ [toolsVolume; downwardVolume].
Proof.
  unfold prepare, mbind, result_bind.
  destruct (credsInit cb _ _) as [e|[[args vs] vms]]; [discriminate|].
  destruct (mergeStepsWithStepTemplate cb _ _) as [e|steps]; [discriminate|].
  destruct (String.eqb (enableAPIFields ctx) AlphaAPIFields);
  destruct (convertScripts cb _ _ _ _ _) as [[si scs] sds];
  (destruct (resolveEntrypoints cb _ _ _) as [e|cs]; [discriminate|]);
  (destruct (orderContainers cb _ _ _ _ _) as [e|[ep cs']]; [discriminate|]);
  intros H; injection H as <-; cbn [p_volumes];
  match goal with
  | |- ∃ mid, _ :: _ :: _ :: _ :: (?M ++ [toolsVolume; downwardVolume]) = _ =>
      exists M; reflexivity
  end.
Qed.

(** X9: the pod's volume list is the one [ValidateVolumes] accepted; it
    starts with the four implicit volumes and holds the tools and downward
    volumes, the task's volumes and the pod template's volumes. *)
Theorem Build_volumes cb ctx b rnd tr ts
    (st st' : gmap positive (gmap string string)) pod :
  Build cb ctx b rnd tr ts st = (st', Ok pod) ->
  validateVolumes cb (pod_volumes pod) = None ∧
  (∃ rest, pod_volumes pod = implicitVolumes ++ rest) ∧
  toolsVolume ∈ pod_volumes pod ∧ downwardVolume ∈ pod_volumes pod ∧
  (∀ v, v ∈ ts_volumes ts -> v ∈ pod_volumes pod) ∧
  (∀ v, v ∈ pt_volumes (default emptyPodTemplate (tr_podTemplate tr)) ->
        v ∈ pod_volumes pod).
Proof.
  intros HB.
  destruct (Build_Ok_full _ _ _ _ _ _ _ _ _ HB)
    as (prep & floor & version & l & Hp & _ & _ & _ & Hv & _).
  destruct (Build_Ok_inv cb ctx b rnd tr ts st st' pod HB)
    as (prep' & floor' & Hp' & _ & _ & Hvol & _).
  rewrite Hp in Hp'. injection Hp' as <-.
  destruct (prepare_volumes cb ctx b tr ts prep Hp) as [mid Hmid].
  split; [done|]. rewrite Hvol, Hmid. split_and!.
  - rewrite <- !app_assoc. eexists. reflexivity.
  - set_solver.
  - set_solver.
  - set_solver.
  - set_solver.
Qed.

(* ------------------------------------------------------------------ *)
(** ** Witnesses for the properties of [Build] *)

Lemma Build_labels_witness :
  ∃ st' pod,
    Build (plainCollaborators []) plainFlags (plainBuilder true) "abcde"
      labelledTaskRun sampleTaskSpec emptyHeap = (st', Ok pod) ∧
    pod_labels pod !! TaskRunLabelKey = Some (tr_name labelledTaskRun) ∧
    ∀ k, k ≠ TaskRunLabelKey -> pod_labels pod !! k = tr_labels labelledTaskRun !! k.
Proof.
  run_build HB. exists st', pod. split; [reflexivity|].
  exact (Build_labels _ _ _ _ _ _ _ _ _ HB).
Defined.

Lemma Build_release_annotation_witness :
  ∃ st' pod,
    Build (plainCollaborators []) plainFlags (plainBuilder true) "abcde"
      sampleTaskRun sampleTaskSpec hermeticHeap = (st', Ok pod) ∧
    ∃ l version,
      tr_annotations sampleTaskRun = Some l ∧ pod_annotations pod = Some l ∧
      changesetGet (plainCollaborators []) = inr version ∧
      mapGet (Some l) ReleaseAnnotation st' = version ∧
      (∀ k, k ≠ ReleaseAnnotation -> k ≠ readyAnnotation ->
            mapGet (Some l) k st' = mapGet (Some l) k hermeticHeap).
Proof.
  run_build HB. exists st', pod. split; [reflexivity|].
  exact (Build_release_annotation _ _ _ _ _ _ _ _ _ HB).
Defined.

Lemma Build_ready_annotation_witness :
  ∃ st' pod,
    Build (plainCollaborators []) plainFlags (plainBuilder true) "abcde"
      sampleTaskRun noSidecarTaskSpec emptyHeap = (st', Ok pod) ∧
    (ts_sidecars noSidecarTaskSpec = [] -> runningInEnvWithInjectedSidecars plainFlags = false ->
       mapGet (tr_annotations sampleTaskRun) readyAnnotation st' = readyAnnotationValue) ∧
    (ts_sidecars noSidecarTaskSpec ≠ [] ∨ runningInEnvWithInjectedSidecars plainFlags = true ->
       mapGet (tr_annotations sampleTaskRun) readyAnnotation st' =
       mapGet (tr_annotations sampleTaskRun) readyAnnotation emptyHeap).
Proof.
  run_build HB. exists st', pod. split; [reflexivity|].
  exact (Build_ready_annotation _ _ _ _ _ _ _ _ _ HB).
Defined.

Lemma Build_listing_error_witness :
  ∃ prep,
    prepare unreachableCluster plainFlags (plainBuilder true) sampleTaskRun sampleTaskSpec
      = inr prep ∧
    listLimitRanges unreachableCluster (tr_namespace sampleTaskRun) = inl "connection refused" ∧
    Build unreachableCluster plainFlags (plainBuilder true) "abcde" sampleTaskRun
      sampleTaskSpec emptyHeap = (emptyHeap, Err "connection refused").
Proof.
  run_prepare Hp. exists prep. split; [reflexivity|]. split; [reflexivity|].
  exact (Build_listing_error _ _ _ _ _ _ _ _ _ Hp eq_refl).
Defined.

Lemma Build_failure_keeps_annotations_witness :
  ∃ st' (o : outcome Pod),
    Build unreachableCluster plainFlags (plainBuilder true) "abcde" sampleTaskRun
      sampleTaskSpec emptyHeap = (st', o) ∧
    (∀ pod, o ≠ Ok pod) ∧ st' = emptyHeap.
Proof.
  exists emptyHeap, (Err "connection refused").
  assert (HB : Build unreachableCluster plainFlags (plainBuilder true) "abcde" sampleTaskRun
                 sampleTaskSpec emptyHeap = (emptyHeap, Err "connection refused"))
    by (vm_compute; reflexivity).
  assert (Hno : ∀ pod : Pod, Err "connection refused" ≠ Ok pod) by discriminate.
  split; [exact HB|]. split; [exact Hno|].
  exact (Build_failure_keeps_annotations _ _ _ _ _ _ _ _ _ HB Hno).
Defined.

Lemma Build_nil_annotations_never_ok_witness :
  tr_annotations nilAnnotationsTaskRun = None ∧
  ((∃ e, snd (Build (plainCollaborators []) plainFlags (plainBuilder true) "abcde"
                nilAnnotationsTaskRun sampleTaskSpec emptyHeap) = Err e) ∨
   snd (Build (plainCollaborators []) plainFlags (plainBuilder true) "abcde"
          nilAnnotationsTaskRun sampleTaskSpec emptyHeap) =
   Panic "assignment to entry in nil map").
Proof.
  split; [reflexivity|].
  exact (Build_nil_annotations_never_ok (plainCollaborators []) plainFlags (plainBuilder true)
           "abcde" nilAnnotationsTaskRun sampleTaskSpec emptyHeap eq_refl).
Defined.

Lemma Build_step_name_workingDir_witness :
  ∃ st' pod prep c,
    Build (plainCollaborators []) plainFlags (plainBuilder true) "abcde"
      sampleTaskRun sampleTaskSpec emptyHeap = (st', Ok pod) ∧
    prepare (plainCollaborators []) plainFlags (plainBuilder true)
      sampleTaskRun sampleTaskSpec = inr prep ∧
    p_stepContainers prep !! 0%nat = Some c ∧
    ∃ c', pod_containers pod !! 0%nat = Some c' ∧
      c_name c' = restrictLength (plainCollaborators [])
                    (stepName (plainCollaborators []) (c_name c) 0) ∧
      (c_workingDir c = "" -> disableWorkingDirOverwrite plainFlags = false ->
         c_workingDir c' = WorkspaceDir) ∧
      (c_workingDir c ≠ "" ∨ disableWorkingDirOverwrite plainFlags = true ->
         c_workingDir c' = c_workingDir c) ∧
      c_image c' = c_image c ∧
      c_command c' = c_command c.
Proof.
  run_build HB. run_prepare Hp.
  destruct (p_stepContainers prep !! 0%nat) as [c|] eqn:Hc;
    [|rewrite (inr_proj _ _ Hp) in Hc; vm_compute in Hc; discriminate Hc].
  exists st', pod, prep, c. split; [reflexivity|]. split; [reflexivity|]. split; [exact Hc|].
  exact (Build_step_name_workingDir _ _ _ _ _ _ _ _ _ _ _ _ HB Hp Hc).
Defined.

Lemma Build_container_count_witness :
  ∃ st' pod prep,
    Build (plainCollaborators []) plainFlags (plainBuilder true) "abcde"
      sampleTaskRun sampleTaskSpec emptyHeap = (st', Ok pod) ∧
    prepare (plainCollaborators []) plainFlags (plainBuilder true)
      sampleTaskRun sampleTaskSpec = inr prep ∧
    length (pod_containers pod) =
    (length (p_stepContainers prep) + length (p_sidecarContainers prep))%nat.
Proof.
  run_build HB. run_prepare Hp.
  exists st', pod, prep. split; [reflexivity|]. split; [reflexivity|].
  exact (Build_container_count _ _ _ _ _ _ _ _ _ _ HB Hp).
Defined.

Lemma Build_volumes_witness :
  ∃ st' pod,
    Build (plainCollaborators []) plainFlags (plainBuilder true) "abcde"
      sampleTaskRun noSidecarTaskSpec emptyHeap = (st', Ok pod) ∧
    validateVolumes (plainCollaborators []) (pod_volumes pod) = None ∧
    (∃ rest, pod_volumes pod = implicitVolumes ++ rest) ∧
    toolsVolume ∈ pod_volumes pod ∧ downwardVolume ∈ pod_volumes pod ∧
    (∀ v, v ∈ ts_volumes noSidecarTaskSpec -> v ∈ pod_volumes pod) ∧
    (∀ v, v ∈ pt_volumes (default emptyPodTemplate (tr_podTemplate sampleTaskRun)) ->
          v ∈ pod_volumes pod).
Proof.
  run_build HB. exists st', pod. split; [reflexivity|].
  exact (Build_volumes _ _ _ _ _ _ _ _ _ HB).
Defined.

(* ------------------------------------------------------------------ *)
(** ** The floor does not depend on the listing order *)

Lemma fold_left_max_eq (l : list N) (a : N) :
  fold_left N.max l a = N.max a (fold_right N.max 0%N l).
Proof. revert a. induction l as [|x l IH]; intros a; simpl; [lia|]. rewrite IH. lia. Qed.

Lemma fold_right_max_perm (l l' : list N) :
  Permutation l l' -> fold_right N.max 0%N l = fold_right N.max 0%N l'.
Proof. induction 1; simpl; lia. Qed.

(** X10: [getLimitRangeMinimum] gives the same floor for every resource
    whatever the order in which the cluster lists the LimitRanges. *)
Theorem getLimitRangeMinimum_order_independent (lrs lrs' : list LimitRange) (ns : string) :
  Permutation lrs lrs' ->
  ∃ floor floor',
    getLimitRangeMinimum (fun _ => inr lrs) ns = inr floor ∧
    getLimitRangeMinimum (fun _ => inr lrs') ns = inr floor' ∧
    ∀ k, qty floor k = qty floor' k.
Proof.
  intros Hperm. exists (limitRangesMin lrs), (limitRangesMin lrs').
  split; [reflexivity|]. split; [reflexivity|]. intros k.
  rewrite !limitRangesMin_qty, !fold_left_max_eq. f_equal.
  apply fold_right_max_perm. unfold declaredMinimums.
  by apply Permutation_flat_map.
Qed.

Lemma getLimitRangeMinimum_order_independent_witness :
  Permutation cpuMinimums (rev cpuMinimums) ∧
  ∃ floor floor',
    getLimitRangeMinimum (fun _ => inr cpuMinimums) "ns" = inr floor ∧
    getLimitRangeMinimum (fun _ => inr (rev cpuMinimums)) "ns" = inr floor' ∧
    ∀ k, qty floor k = qty floor' k.
Proof.
  assert (H : Permutation cpuMinimums (rev cpuMinimums)) by apply Permutation_rev.
  split; [exact H|]. exact (getLimitRangeMinimum_order_independent _ _ "ns" H).
Defined.

(* ------------------------------------------------------------------ *)
(** ** The reference matcher *)

Lemma list_ascii_of_string_app (s1 s2 : string) :
  list_ascii_of_string (s1 ++ s2) = list_ascii_of_string s1 ++ list_ascii_of_string s2.
Proof. induction s1 as [|a s1 IH]; simpl; [reflexivity|]. by rewrite IH. Qed.

Lemma string_of_list_ascii_app (l1 l2 : list ascii) :
  string_of_list_ascii (l1 ++ l2) = (string_of_list_ascii l1 ++ string_of_list_ascii l2)%string.
Proof. induction l1 as [|a l1 IH]; simpl; [reflexivity|]. by rewrite IH. Qed.

Lemma string_app_assoc_r (s1 s2 s3 : string) : ((s1 ++ s2) ++ s3)%string = (s1 ++ s2 ++ s3)%string.
Proof. induction s1 as [|a s1 IH]; [reflexivity|exact (f_equal (String a) IH)]. Qed.

Lemma string_length_list (s : string) : String.length s = length (list_ascii_of_string s).
Proof. induction s as [|a s IH]; simpl; auto. Qed.

Lemma string_length_app (s1 s2 : string) :
  String.length (s1 ++ s2) = (String.length s1 + String.length s2)%nat.
Proof. induction s1 as [|a s1 IH]; simpl; auto. Qed.

Lemma isChar_len (c : ascii) (cs r : list ascii) :
  isChar c cs = Some r -> (length r < length cs)%nat.
Proof.
  destruct cs as [|d cs]; simpl; [discriminate|].
  destruct (Ascii.eqb c d); intros H; [injection H as <-; simpl; lia|discriminate].
Qed.

Lemma span_len (p : ascii -> bool) (cs : list ascii) :
  (length (snd (span p cs)) <= length cs)%nat.
Proof.
  induction cs as [|c cs IH]; simpl; [lia|].
  destruct (p c); [destruct (span p cs) as [a r]; simpl in *; lia|simpl; lia].
Qed.

Lemma matchAt_len (cs m rest : list ascii) :
  matchAt cs = Some (m, rest) -> (length rest < length cs)%nat.
Proof.
  unfold matchAt, mbind, option_bind.
  destruct (isChar "$"%char cs) as [cs1|] eqn:E1; [|discriminate].
  apply isChar_len in E1.
  destruct (isChar "("%char cs1) as [cs2|] eqn:E2; [|discriminate].
  apply isChar_len in E2.
  pose proof (span_len isNameChar cs2) as E3.
  destruct (span isNameChar cs2) as [name cs3]. simpl in E3.
  case_bool_decide; [discriminate|].
  destruct (isChar ")"%char cs3) as [r|] eqn:E4.
  { apply isChar_len in E4. intros Hm. injection Hm as _ <-. lia. }
  destruct (isChar "["%char cs3) as [cs4|] eqn:E5; [|discriminate].
  apply isChar_len in E5.
  assert (Hidx : ∀ idx cs5,
            match isChar "*"%char cs4 with
            | Some r => Some (["*"%char], r)
            | None => let '(ds, r) := span isDigit cs4 in
                      if bool_decide (ds = []) then None else Some (ds, r)
            end = Some (idx, cs5) -> (length cs5 <= length cs4)%nat).
  { intros idx cs5. destruct (isChar "*"%char cs4) as [r|] eqn:E6.
    - apply isChar_len in E6. intros Hm. injection Hm as _ <-. lia.
    - pose proof (span_len isDigit cs4) as E7.
      destruct (span isDigit cs4) as [ds r]. simpl in E7.
      case_bool_decide; [discriminate|]. intros Hm. injection Hm as _ <-. lia. }
  destruct (match isChar "*"%char cs4 with
            | Some r => Some (["*"%char], r)
            | None => let '(ds, r) := span isDigit cs4 in
                      if bool_decide (ds = []) then None else Some (ds, r)
            end) as [[idx cs5]|] eqn:E6; [|discriminate].
  specialize (Hidx idx cs5 eq_refl).
  destruct (isChar "]"%char cs5) as [cs6|] eqn:E7; [|discriminate].
  apply isChar_len in E7.
  destruct (isChar ")"%char cs6) as [r|] eqn:E8; [|discriminate].
  apply isChar_len in E8. intros Hm. injection Hm as _ <-. lia.
Qed.

(** The fuel of [findAllFrom] does not matter once it covers the input. *)
Lemma findAllFrom_fuel (f1 f2 : nat) (cs : list ascii) :
  (length cs <= f1)%nat -> (length cs <= f2)%nat -> findAllFrom f1 cs = findAllFrom f2 cs.
Proof.
  revert f2 cs. induction f1 as [|f1 IH]; intros f2 cs H1 H2.
  - destruct cs; simpl in H1; [|lia]. destruct f2; reflexivity.
  - destruct cs as [|c cs]; [destruct f2; reflexivity|].
    destruct f2 as [|f2]; simpl in H2; [lia|]. simpl in H1 |- *.
    destruct (matchAt (c :: cs)) as [[m rest]|] eqn:E.
    + apply matchAt_len in E. simpl in E. f_equal. apply IH; lia.
    + apply IH; lia.
Qed.

Lemma matchAt_not_dollar (c : ascii) (cs : list ascii) :
  c ≠ "$"%char -> matchAt (c :: cs) = None.
Proof.
  intros Hc. unfold matchAt.
  assert (isChar "$"%char (c :: cs) = None) as ->; [|reflexivity].
  unfold isChar. destruct (Ascii.eqb "$" c) eqn:E; [|reflexivity].
  apply Ascii.eqb_eq in E. congruence.
Qed.

Lemma findAllFrom_no_dollar (fuel : nat) (cs : list ascii) :
  "$"%char ∉ cs -> findAllFrom fuel cs = [].
Proof.
  revert cs. induction fuel as [|fuel IH]; intros cs Hcs; [reflexivity|].
  destruct cs as [|c cs]; [reflexivity|]. simpl.
  rewrite matchAt_not_dollar by (intros ->; apply Hcs; left).
  apply IH. intros H. apply Hcs. by right.
Qed.

Lemma findAllFrom_skip (fuel : nat) (p rest : list ascii) :
  "$"%char ∉ p -> (length (p ++ rest) <= fuel)%nat ->
  findAllFrom fuel (p ++ rest) = findAllFrom (fuel - length p) rest.
Proof.
  revert fuel. induction p as [|c p IH]; intros fuel Hp Hlen.
  - simpl. by rewrite Nat.sub_0_r.
  - destruct fuel as [|fuel]; simpl in Hlen; [lia|]. simpl.
    rewrite matchAt_not_dollar by (intros ->; apply Hp; left).
    apply IH; [intros H; apply Hp; by right|lia].
Qed.

Lemma span_name (n q : list ascii) :
  Forall (fun c => isNameChar c = true) n ->
  span isNameChar (n ++ ")"%char :: q) = (n, ")"%char :: q).
Proof.
  induction 1 as [|c n Hc Hn IH]; [reflexivity|]. simpl. by rewrite Hc, IH.
Qed.

Lemma isChar_cons_eq (c : ascii) (cs : list ascii) : isChar c (c :: cs) = Some cs.
Proof. unfold isChar. by rewrite Ascii.eqb_refl. Qed.

Lemma isChar_ne (c d : ascii) (cs : list ascii) : d ≠ c -> isChar c (d :: cs) = None.
Proof.
  intros Hdc. unfold isChar. destruct (Ascii.eqb c d) eqn:E; [|reflexivity].
  apply Ascii.eqb_eq in E. congruence.
Qed.

Lemma span_prefix (f : ascii -> bool) (n : list ascii) (c : ascii) (q : list ascii) :
  Forall (fun d => f d = true) n -> f c = false ->
  span f (n ++ c :: q) = (n, c :: q).
Proof.
  intros Hn Hc. induction Hn as [|d n Hd Hn IH]; simpl; [by rewrite Hc|].
  by rewrite Hd, IH.
Qed.

Lemma matchAt_index (n idx q : list ascii) :
  n ≠ [] -> Forall (fun c => isNameChar c = true) n ->
  idx = ["*"%char] ∨ (idx ≠ [] ∧ Forall (fun c => isDigit c = true) idx) ->
  matchAt ("$"%char :: "("%char :: n ++ "["%char :: idx ++ "]"%char :: ")"%char :: q) =
  Some (["$"; "("]%char ++ n ++ ["["%char] ++ idx ++ ["]"; ")"]%char, q).
Proof.
  intros Hne Hn Hidx. unfold matchAt, mbind, option_bind.
  rewrite isChar_cons_eq. cbv beta iota. rewrite isChar_cons_eq. cbv beta iota.
  rewrite span_prefix by (exact Hn || reflexivity).
  rewrite bool_decide_eq_false_2 by exact Hne. cbv beta iota.
  rewrite isChar_ne by discriminate. rewrite isChar_cons_eq. cbv beta iota.
  destruct Hidx as [->|[Hi Hd]].
  - cbn [app]. rewrite isChar_cons_eq. cbv beta iota. rewrite isChar_cons_eq. cbv beta iota.
    rewrite isChar_cons_eq. reflexivity.
  - destruct idx as [|d idx']; [congruence|].
    change ((d :: idx') ++ ?r) with (d :: (idx' ++ r)).
    rewrite isChar_ne.
    2:{ intros ->. inversion Hd as [|? ? Hstar]. discriminate Hstar. }
    change (d :: (idx' ++ ?r)) with ((d :: idx') ++ r).
    rewrite span_prefix by (exact Hd || reflexivity).
    rewrite bool_decide_eq_false_2 by discriminate. cbv beta iota.
    rewrite isChar_cons_eq. cbv beta iota. rewrite isChar_cons_eq. reflexivity.
Qed.

Lemma matchAt_ref (n q : list ascii) :
  n ≠ [] -> Forall (fun c => isNameChar c = true) n ->
  matchAt ("$"%char :: "("%char :: n ++ ")"%char :: q) =
  Some (["$"; "("]%char ++ n ++ [")"%char], q).
Proof.
  intros Hne Hn. unfold matchAt, mbind, option_bind. simpl.
  rewrite span_name by exact Hn. rewrite bool_decide_eq_false_2 by exact Hne.
  reflexivity.
Qed.

Lemma findAllFrom_match (fuel : nat) (cs m rest : list ascii) :
  matchAt cs = Some (m, rest) ->
  findAllFrom (S fuel) cs = string_of_list_ascii m :: findAllFrom fuel rest.
Proof.
  intros H. destruct cs as [|c cs]; [discriminate|]. simpl. by rewrite H.
Qed.

Lemma substring_0_app (x z : string) : String.substring 0 (String.length x) (x ++ z) = x.
Proof. induction x as [|a x IH]; simpl; [destruct z; reflexivity|]. by rewrite IH. Qed.

Lemma substring_0_len (x : string) : String.substring 0 (String.length x) x = x.
Proof. induction x as [|a x IH]; simpl; [reflexivity|]. by rewrite IH. Qed.

Lemma substring_app_shift (x z : string) (n m : nat) :
  String.substring (String.length x + n) m (x ++ z) = String.substring n m z.
Proof. induction x as [|a x IH]; simpl; [reflexivity|]. exact IH. Qed.

Lemma prefix_empty (s : string) : String.prefix "" s = true.
Proof. destruct s; reflexivity. Qed.

Lemma stripVarSubExpression_ref (x : string) :
  stripVarSubExpression ("$(" ++ x ++ ")") = x.
Proof.
  unfold stripVarSubExpression, TrimPrefix.
  change ("$(" ++ x ++ ")")%string with (String "$" (String "(" (x ++ ")"))).
  cbn [String.prefix String.length String.substring].
  destruct (ascii_dec "$"%char "$"%char); [|congruence].
  destruct (ascii_dec "("%char "("%char); [|congruence].
  rewrite (prefix_empty (x ++ ")")%string).
  replace (S (S (String.length (x ++ ")")%string)) - 2)%nat
    with (String.length (x ++ ")")%string) by lia.
  rewrite substring_0_len. unfold TrimSuffix.
  rewrite string_length_app. cbn [String.length].
  replace (String.length x + 1 - 1)%nat with (String.length x + 0)%nat by lia.
  rewrite substring_app_shift. cbn [String.substring].
  replace (String.length x + 0)%nat with (String.length x) by lia.
  rewrite substring_0_app.
  destruct (1 <=? String.length x + 1)%nat eqn:E; [reflexivity|].
  apply Nat.leb_gt in E. lia.
Qed.

Lemma fold_goAppend {A B} (f : B -> A) (es : list B) (s : slice A) :
  fold_left (fun result e => goAppend result (f e)) es s =
  match es with [] => s | _ => MkSlice (slice_to_list s ++ map f es) end.
Proof.
  revert s. induction es as [|e es IH]; intros s; [reflexivity|]. simpl.
  rewrite IH. destruct es as [|e' es']; simpl; [reflexivity|].
  by rewrite <- app_assoc.
Qed.

Lemma validateString_list (v : string) :
  slice_to_list (validateString v) =
  map stripVarSubExpression (findAllFrom (String.length v) (list_ascii_of_string v)).
Proof.
  unfold validateString, FindAllString.
  destruct (findAllFrom (String.length v) (list_ascii_of_string v)) as [|e es];
    [reflexivity|].
  rewrite fold_goAppend. reflexivity.
Qed.

(** X11: [validateString] returns one stripped expression per match of
    [VariableSubstitutionRegex], in order; it is nil exactly when there is no
    match, and never a non-nil empty slice. *)
Theorem validateString_matches (v : string) :
  slice_to_list (validateString v) =
    map stripVarSubExpression (slice_to_list (FindAllString v)) ∧
  (validateString v = NilSlice <-> FindAllString v = NilSlice) ∧
  validateString v ≠ MkSlice [].
Proof.
  unfold validateString, FindAllString.
  destruct (findAllFrom (String.length v) (list_ascii_of_string v)) as [|e es];
    [split_and!; [reflexivity|tauto|discriminate]|].
  rewrite fold_goAppend. simpl. split_and!; [reflexivity|split; discriminate|discriminate].
Qed.

(** X12: A value without a '$' holds no reference: [validateString] returns nil. *)
Theorem validateString_no_dollar (v : string) :
  "$"%char ∉ list_ascii_of_string v -> validateString v = NilSlice.
Proof.
  intros Hv. unfold validateString, FindAllString.
  by rewrite findAllFrom_no_dollar.
Qed.

Lemma validateString_no_dollar_witness :
  ("$"%char ∉ list_ascii_of_string "(params.x) and {params.y}") ∧
  validateString "(params.x) and {params.y}" = NilSlice.
Proof.
  assert (H : "$"%char ∉ list_ascii_of_string "(params.x) and {params.y}")
    by (vm_compute; intros Hin; repeat (inversion Hin as [|? ? ? Hin']; subst; clear Hin; rename Hin' into Hin)).
  split; [exact H|]. exact (validateString_no_dollar _ H).
Defined.

(** X13: After a '$'-free prefix, a reference "$(name)" whose name is a non-empty
    run of name characters is returned as its name, followed by the
    references found in the rest of the value. *)
Theorem validateString_reference (p n q : string) :
  "$"%char ∉ list_ascii_of_string p -> n ≠ ""%string ->
  Forall (fun c => isNameChar c = true) (list_ascii_of_string n) ->
  slice_to_list (validateString (p ++ "$(" ++ n ++ ")" ++ q)%string) =
    n :: slice_to_list (validateString q).
Proof.
  intros Hp Hne Hn. rewrite !validateString_list.
  assert (Hc : list_ascii_of_string (p ++ "$(" ++ n ++ ")" ++ q)%string =
               list_ascii_of_string p ++ "$"%char :: "("%char ::
               list_ascii_of_string n ++ ")"%char :: list_ascii_of_string q)
    by (rewrite !list_ascii_of_string_app; reflexivity).
  rewrite string_length_list, Hc, findAllFrom_skip by (done || lia).
  rewrite length_app. cbn [length]. rewrite length_app. cbn [length].
  replace (length (list_ascii_of_string p) +
           S (S (length (list_ascii_of_string n) + S (length (list_ascii_of_string q)))) -
           length (list_ascii_of_string p))%nat
    with (S (S (length (list_ascii_of_string n) + S (length (list_ascii_of_string q)))))
    by lia.
  assert (Hne' : list_ascii_of_string n ≠ []).
  { intros Hnil. apply Hne. destruct n as [|a n]; [reflexivity|discriminate Hnil]. }
  rewrite (findAllFrom_match _ _ _ _ (matchAt_ref _ _ Hne' Hn)).
  cbn [map]. f_equal.
  - rewrite !string_of_list_ascii_app, string_of_list_ascii_of_string.
    apply stripVarSubExpression_ref.
  - f_equal. rewrite string_length_list. apply findAllFrom_fuel; lia.
Qed.

Lemma validateString_reference_witness :
  slice_to_list (validateString ("value: " ++ "$(" ++ "tasks.task1.results.r-1" ++ ")" ++ "")%string) =
    ["tasks.task1.results.r-1"].
Proof.
  exact (validateString_reference "value: " "tasks.task1.results.r-1" ""
           ltac:(vm_compute; intros Hin; repeat (inversion Hin as [|? ? ? Hin']; subst; clear Hin; rename Hin' into Hin))
           ltac:(discriminate)
           ltac:(vm_compute; repeat constructor)).
Defined.

(** X14: After a '$'-free prefix, an indexed reference "$(name[idx])", with idx
    "*" or a non-empty run of digits, is returned with its index kept,
    "name[idx]", followed by the references found in the rest. *)
Theorem validateString_indexed_reference (p n idx q : string) :
  "$"%char ∉ list_ascii_of_string p -> n ≠ ""%string ->
  Forall (fun c => isNameChar c = true) (list_ascii_of_string n) ->
  idx = "*"%string ∨
    (idx ≠ ""%string ∧ Forall (fun c => isDigit c = true) (list_ascii_of_string idx)) ->
  slice_to_list (validateString (p ++ "$(" ++ n ++ "[" ++ idx ++ "])" ++ q)%string) =
    (n ++ "[" ++ idx ++ "]")%string :: slice_to_list (validateString q).
Proof.
  intros Hp Hne Hn Hidx. rewrite !validateString_list.
  assert (Hc : list_ascii_of_string (p ++ "$(" ++ n ++ "[" ++ idx ++ "])" ++ q)%string =
               list_ascii_of_string p ++ "$"%char :: "("%char ::
               list_ascii_of_string n ++ "["%char :: list_ascii_of_string idx ++
               "]"%char :: ")"%char :: list_ascii_of_string q)
    by (rewrite !list_ascii_of_string_app; reflexivity).
  assert (Hne' : list_ascii_of_string n ≠ []).
  { intros Hnil. apply Hne. destruct n as [|a n]; [reflexivity|discriminate Hnil]. }
  assert (Hidx' : list_ascii_of_string idx = ["*"%char] ∨
                  (list_ascii_of_string idx ≠ [] ∧
                   Forall (fun c => isDigit c = true) (list_ascii_of_string idx))).
  { destruct Hidx as [->|[Hi Hd]]; [by left|right; split; [|exact Hd]].
    intros Hnil. apply Hi. destruct idx as [|a idx]; [reflexivity|discriminate Hnil]. }
  rewrite string_length_list, Hc, findAllFrom_skip by (done || lia).
  rewrite length_app. cbn [length]. rewrite length_app. cbn [length].
  rewrite length_app. cbn [length].
  replace (length (list_ascii_of_string p) +
           S (S (length (list_ascii_of_string n) +
                 S (length (list_ascii_of_string idx) + S (S (length (list_ascii_of_string q)))))) -
           length (list_ascii_of_string p))%nat
    with (S (S (length (list_ascii_of_string n) +
                 S (length (list_ascii_of_string idx) + S (S (length (list_ascii_of_string q)))))))
    by lia.
  rewrite (findAllFrom_match _ _ _ _ (matchAt_index _ _ _ Hne' Hn Hidx')).
  cbn [map]. f_equal.
  - rewrite !string_of_list_ascii_app, !string_of_list_ascii_of_string.
    cbn [string_of_list_ascii].
    rewrite <- (stripVarSubExpression_ref (n ++ "[" ++ idx ++ "]")%string).
    f_equal. rewrite !string_app_assoc_r. reflexivity.
  - f_equal. rewrite string_length_list. apply findAllFrom_fuel; lia.
Qed.

Lemma validateString_indexed_reference_witness :
  slice_to_list (validateString ("x: " ++ "$(" ++ "params.list" ++ "[" ++ "*" ++ "])" ++ " $(params.n)")%string) =
    ["params.list[*]"; "params.n"].
Proof.
  rewrite (validateString_indexed_reference "x: " "params.list" "*" " $(params.n)"
             ltac:(vm_compute; intros Hin; repeat (inversion Hin as [|? ? ? Hin']; subst; clear Hin; rename Hin' into Hin))
             ltac:(discriminate)
             ltac:(vm_compute; repeat constructor)
             ltac:(left; reflexivity)).
  vm_compute. reflexivity.
Defined.

(* ------------------------------------------------------------------ *)
(** ** Sidecars and errors of [Build] *)

(** X16: The sidecars follow the steps in the pod, in order, each renamed
    "sidecar-" followed by its name, cut by the length restriction. *)
Theorem Build_sidecars_after_steps cb ctx b rnd tr ts
    (st st' : gmap positive (gmap string string)) pod prep j sc :
  Build cb ctx b rnd tr ts st = (st', Ok pod) ->
  prepare cb ctx b tr ts = inr prep ->
  p_sidecarContainers prep !! j = Some sc ->
  pod_containers pod !! (length (p_stepContainers prep) + j)%nat =
    Some (set_name sc (restrictLength cb (sidecarPrefix ++ c_name sc)%string)).
Proof.
  intros HB Hp Hj.
  destruct (Build_Ok_inv cb ctx b rnd tr ts st st' pod HB)
    as (prep' & floor & Hp' & _ & Hc & _).
  rewrite Hp in Hp'. injection Hp' as <-.
  rewrite Hc. unfold mergeSidecars.
  rewrite lookup_app_r by (rewrite finishSteps_length; lia).
  rewrite finishSteps_length, Nat.add_sub_swap, Nat.sub_diag by lia. simpl.
  by rewrite list_lookup_fmap, Hj.
Qed.

(** X17: Every error [Build] returns comes from a collaborator it calls: the
    credentials, the step template merge, the entrypoint lookup, the
    entrypoint ordering, the LimitRange listing, the volume validation or
    the release version.  [Build] makes up no error of its own. *)
Theorem Build_error_origin cb ctx b rnd tr ts
    (st st' : gmap positive (gmap string string)) e :
  Build cb ctx b rnd tr ts st = (st', Err e) ->
  credsInit cb (tr_serviceAccountName tr) (tr_namespace tr) = inl e ∨
  mergeStepsWithStepTemplate cb (ts_stepTemplate ts) (ts_steps ts) = inl e ∨
  (∃ cs, resolveEntrypoints cb (tr_namespace tr) (tr_serviceAccountName tr) cs = inl e) ∨
  (∃ args cs dbg, orderContainers cb (entrypointImage (b_images b)) args cs ts dbg = inl e) ∨
  listLimitRanges cb (tr_namespace tr) = inl e ∨
  (∃ vs, validateVolumes cb vs = Some e) ∨
  changesetGet cb = inl e.
Proof.
  unfold Build, mbind, M_bind, mret, M_ret, lift, readMap.
  destruct (prepare cb ctx b tr ts) as [e'|prep] eqn:Hp.
  { intros H. injection H as _ <-. revert Hp.
    unfold prepare, mbind, result_bind.
    destruct (credsInit cb _ _) as [e0|[[args vs] vms]]; [intros H; injection H as <-; by left|].
    destruct (mergeStepsWithStepTemplate cb _ _) as [e0|steps];
      [intros H; injection H as <-; right; by left|].
    destruct (String.eqb (enableAPIFields ctx) AlphaAPIFields);
    destruct (convertScripts cb _ _ _ _ _) as [[si scs] sds];
    destruct (resolveEntrypoints cb _ _ _) as [e0|scs'] eqn:Hr;
      try (intros H; injection H as <-; right; right; left; by eexists);
    destruct (orderContainers cb _ _ _ _ _) as [e0|[ep scs'']] eqn:Ho;
      try (intros H; injection H as <-; right; right; right; left; by do 3 eexists);
    discriminate. }
  unfold getLimitRangeMinimum.
  destruct (listLimitRanges cb _) as [e'|lrs] eqn:Hl;
    [intros H; injection H as _ <-; do 4 right; by left|].
  destruct (finishSteps _ _ _ _ _ _ _) as [cv scs].
  destruct (validateVolumes cb _) as [e'|] eqn:Hv;
    [intros H; injection H as _ <-; do 5 right; left; by eexists|].
  destruct (changesetGet cb) as [e'|version] eqn:Hc;
    [intros H; injection H as _ <-; by do 6 right|].
  unfold writeMap. destruct (tr_annotations tr) as [l|]; [|intros H; discriminate H].
  destruct (shouldAddReadyAnnotationOnPodCreate ctx (ts_sidecars ts));
  intros H; discriminate H.
Qed.

Lemma Build_sidecars_after_steps_witness :
  ∃ st' pod prep sc,
    Build (plainCollaborators []) plainFlags (plainBuilder true) "abcde"
      sampleTaskRun sampleTaskSpec emptyHeap = (st', Ok pod) ∧
    prepare (plainCollaborators []) plainFlags (plainBuilder true)
      sampleTaskRun sampleTaskSpec = inr prep ∧
    p_sidecarContainers prep !! 0%nat = Some sc ∧
    pod_containers pod !! (length (p_stepContainers prep) + 0)%nat =
      Some (set_name sc (restrictLength (plainCollaborators [])
                           (sidecarPrefix ++ c_name sc)%string)).
Proof.
  run_build HB. run_prepare Hp.
  destruct (p_sidecarContainers prep !! 0%nat) as [sc|] eqn:Hs;
    [|rewrite (inr_proj _ _ Hp) in Hs; vm_compute in Hs; discriminate Hs].
  exists st', pod, prep, sc. split; [reflexivity|]. split; [reflexivity|]. split; [exact Hs|].
  exact (Build_sidecars_after_steps _ _ _ _ _ _ _ _ _ _ _ _ HB Hp Hs).
Defined.

Lemma Build_error_origin_witness :
  Build unreachableCluster plainFlags (plainBuilder true) "abcde"
    sampleTaskRun sampleTaskSpec emptyHeap = (emptyHeap, Err "connection refused") ∧
  (credsInit unreachableCluster (tr_serviceAccountName sampleTaskRun) (tr_namespace sampleTaskRun) = inl "connection refused" ∨
   mergeStepsWithStepTemplate unreachableCluster (ts_stepTemplate sampleTaskSpec) (ts_steps sampleTaskSpec) = inl "connection refused" ∨
   (∃ cs, resolveEntrypoints unreachableCluster (tr_namespace sampleTaskRun) (tr_serviceAccountName sampleTaskRun) cs = inl "connection refused") ∨
   (∃ args cs dbg, orderContainers unreachableCluster (entrypointImage (b_images (plainBuilder true))) args cs sampleTaskSpec dbg = inl "connection refused") ∨
   listLimitRanges unreachableCluster (tr_namespace sampleTaskRun) = inl "connection refused" ∨
   (∃ vs, validateVolumes unreachableCluster vs = Some "connection refused") ∨
   changesetGet unreachableCluster = inl "connection refused").
Proof.
  assert (HB : Build unreachableCluster plainFlags (plainBuilder true) "abcde"
                 sampleTaskRun sampleTaskSpec emptyHeap = (emptyHeap, Err "connection refused"))
    by (vm_compute; reflexivity).
  split; [exact HB|]. exact (Build_error_origin _ _ _ _ _ _ _ _ _ HB).
Defined.
